(** * AutoGLM-GUI chat console: the per-device streaming state coordinator

    A shallow embedding of [frontend/src/routes/chat.tsx]: the per-device
    state store ([deviceStates] and [updateDeviceState]), the stream event
    callbacks created by [handleSend], the reset and device-switch handlers,
    the display-mode conditions and the screenshot polling guard.

    Conventions of the embedding.
    - The React state [deviceStates : Map<string, DeviceState>] is a
      [gmap string DeviceState.t]; a functional update
      [setDeviceStates(prev => f(prev))] is the application of [f] to the
      store held by the component at the time the update is applied.
      A handler below is the call of the source handler followed at once by
      the application of the updaters it queued; [batch] further down lets
      several calls happen before React applies the queue.  The two differ
      for [onStep] only, whose updater reads the two refs when it is
      applied: every other updater is a function of [prev] alone.
    - [useRef] cells are fields of the component state [World].
    - A handler closes over the values of the render that created it.  Those
      captured values are passed as an explicit [Render.t] argument, so that a
      handler resumed after an [await] still sees the values it captured.
    - What the environment supplies ([Date.now()], the handle returned by
      [sendMessageStream], the events of a stream, the result of
      [getScreenshot]) is an argument of the handler.
    - The hooks [devices], [config] and [showConfig] and the ref
      [messagesEndRef] are left out: no handler below reads them to decide
      what to write to the store. *)

From Stdlib Require Import ZArith Bool Ascii String DecimalString.
From stdpp Require Import base option list gmap strings.

Local Open Scope string_scope.
Local Open Scope list_scope.
Local Open Scope Z_scope.

(** ** Data model *)

(** [role: 'user' | 'agent'] *)
Inductive Role := user | agent.

(** [displayMode: 'auto' | 'video' | 'screenshot'] *)
Inductive DisplayMode := auto | video | screenshot.

(** [actions?: any[]]: an action is an opaque JSON value; it is only ever
    copied, so its serialised text stands for it. *)
Definition Action : Type := string.

(** [currentStream: { close: () => void } | null]: the object returned by
    [sendMessageStream], identified by a number chosen by the environment. *)
Definition StreamHandle : Type := nat.

#[global] Instance Role_eq_dec : EqDecision Role.
Proof. solve_decision. Defined.

#[global] Instance DisplayMode_eq_dec : EqDecision DisplayMode.
Proof. solve_decision. Defined.

Module Message.
(** [interface Message]; optional members are [option]s, [timestamp] is the
    [Date] as milliseconds. *)
Record t := mk {
  id : string;
  role : Role;
  content : string;
  timestamp : Z;
  steps : option Z;
  success : option bool;
  thinking : option (list string);
  actions : option (list Action);
  isStreaming : option bool;
}.
End Message.

Module StepEvent.
(** Modelled from the spec: the type [StepEvent] of [../api], which is not
    part of the sources; section 6 gives it as
    [{ step: int, thinking: string, action: opaque }]. *)
Record t := mk { step : Z; thinking : string; action : Action }.
End StepEvent.

Module DoneEvent.
(** Modelled from the spec: the type [DoneEvent] of [../api],
    [{ message: string, success: bool }]. *)
Record t := mk { message : string; success : bool }.
End DoneEvent.

Module ErrorEvent.
(** Modelled from the spec: the type [ErrorEvent] of [../api],
    [{ message: string }]. *)
Record t := mk { message : string }.
End ErrorEvent.

Module ScreenshotResponse.
(** Modelled from the spec: the type [ScreenshotResponse] of [../api],
    [{ success, image?, width?, height?, isSensitive?, error? }]; the
    component reads [image], [width], [height], [is_sensitive], [error]. *)
Record t := mk {
  success : bool;
  image : option string;
  width : option Z;
  height : option Z;
  is_sensitive : option bool;
  error : option string;
}.
End ScreenshotResponse.

Module DeviceState.
(** [interface DeviceState] *)
Record t := mk {
  messages : list Message.t;
  loading : bool;
  error : option string;
  initialized : bool;
  currentStream : option StreamHandle;
  screenshot : option ScreenshotResponse.t;
  useVideoStream : bool;
  videoStreamFailed : bool;
  displayMode : DisplayMode;
  tapFeedback : option string;
}.
End DeviceState.

Module Partial.
(** [Partial<DeviceState>]: every member may be absent; a nullable member
    that is present carries its own [option]. *)
Record t := mk {
  messages : option (list Message.t);
  loading : option bool;
  error : option (option string);
  initialized : option bool;
  currentStream : option (option StreamHandle);
  screenshot : option (option ScreenshotResponse.t);
  useVideoStream : option bool;
  videoStreamFailed : option bool;
  displayMode : option DisplayMode;
  tapFeedback : option (option string);
}.

(** The object literal [{}]. *)
Definition empty : t :=
  mk None None None None None None None None None None.

(** The object literals with one member, [{ messages: v }] and so on. *)
Definition Messages (v : list Message.t) : t :=
  mk (Some v) None None None None None None None None None.
Definition Loading (v : bool) : t :=
  mk None (Some v) None None None None None None None None.
Definition Error (v : option string) : t :=
  mk None None (Some v) None None None None None None None.
Definition Initialized (v : bool) : t :=
  mk None None None (Some v) None None None None None None.
Definition CurrentStream (v : option StreamHandle) : t :=
  mk None None None None (Some v) None None None None None.
Definition Screenshot (v : option ScreenshotResponse.t) : t :=
  mk None None None None None (Some v) None None None None.
Definition UseVideoStream (v : bool) : t :=
  mk None None None None None None (Some v) None None None.
Definition VideoStreamFailed (v : bool) : t :=
  mk None None None None None None None (Some v) None None.
Definition DisplayMode (v : DisplayMode) : t :=
  mk None None None None None None None None (Some v) None.
Definition TapFeedback (v : option string) : t :=
  mk None None None None None None None None None (Some v).

(** A literal with several members lists them; a member written later wins. *)
Definition and (p q : t) : t :=
  mk (from_option Some (messages p) (messages q))
     (from_option Some (loading p) (loading q))
     (from_option Some (error p) (error q))
     (from_option Some (initialized p) (initialized q))
     (from_option Some (currentStream p) (currentStream q))
     (from_option Some (screenshot p) (screenshot q))
     (from_option Some (useVideoStream p) (useVideoStream q))
     (from_option Some (videoStreamFailed p) (videoStreamFailed q))
     (from_option Some (displayMode p) (displayMode q))
     (from_option Some (tapFeedback p) (tapFeedback q)).

Definition lit (members : list t) : t := fold_left and members empty.
End Partial.

(** The literal that [getCurrentDeviceState] and [updateDeviceState] both use
    when the map has no entry. *)
Definition defaultDeviceState : DeviceState.t :=
  {| DeviceState.messages := [];
     DeviceState.loading := false;
     DeviceState.error := None;
     DeviceState.initialized := false;
     DeviceState.currentStream := None;
     DeviceState.screenshot := None;
     DeviceState.useVideoStream := true;
     DeviceState.videoStreamFailed := false;
     DeviceState.displayMode := auto;
     DeviceState.tapFeedback := None |}.

(** The object spread [{ ...currentState, ...updates }]. *)
Definition spread (currentState : DeviceState.t) (updates : Partial.t)
  : DeviceState.t :=
  {| DeviceState.messages :=
       default (DeviceState.messages currentState) (Partial.messages updates);
     DeviceState.loading :=
       default (DeviceState.loading currentState) (Partial.loading updates);
     DeviceState.error :=
       default (DeviceState.error currentState) (Partial.error updates);
     DeviceState.initialized :=
       default (DeviceState.initialized currentState)
               (Partial.initialized updates);
     DeviceState.currentStream :=
       default (DeviceState.currentStream currentState)
               (Partial.currentStream updates);
     DeviceState.screenshot :=
       default (DeviceState.screenshot currentState)
               (Partial.screenshot updates);
     DeviceState.useVideoStream :=
       default (DeviceState.useVideoStream currentState)
               (Partial.useVideoStream updates);
     DeviceState.videoStreamFailed :=
       default (DeviceState.videoStreamFailed currentState)
               (Partial.videoStreamFailed updates);
     DeviceState.displayMode :=
       default (DeviceState.displayMode currentState)
               (Partial.displayMode updates);
     DeviceState.tapFeedback :=
       default (DeviceState.tapFeedback currentState)
               (Partial.tapFeedback updates) |}.

(** ** The store and the component state *)

Abbreviation Store := (gmap string DeviceState.t).

(** The updater that [updateDeviceState] hands to [setDeviceStates]:
    [prev => { newMap = new Map(prev);
               currentState = newMap.get(deviceId) || {defaults};
               newMap.set(deviceId, {...currentState, ...updates});
               return newMap }]. *)
Definition updateDeviceState_updater (deviceId : string) (updates : Partial.t)
    (prev : Store) : Store :=
  let currentState := default defaultDeviceState (prev !! deviceId) in
  <[deviceId := spread currentState updates]> prev.

Module Render.
(** The values of one render that the handlers close over. *)
Record t := mk {
  currentDeviceId : string;
  currentState : DeviceState.t;
  input : string;
}.
End Render.

(** The component: its state hooks and refs, and two records of what it has
    asked of the transport ([close()] calls made, [getScreenshot] requests
    not yet answered). *)
Record World := mkWorld {
  deviceStates : Store;
  currentDeviceId : string;
  input : string;
  screenshotFetchingRef : bool;
  currentThinkingRef : list string;
  currentActionsRef : list Action;
  closedStreams : list StreamHandle;
  pendingScreenshots : list string;
}.

(** The component as first mounted. *)
Definition initialWorld : World :=
  {| deviceStates := ∅;
     currentDeviceId := "";
     input := "";
     screenshotFetchingRef := false;
     currentThinkingRef := [];
     currentActionsRef := [];
     closedStreams := [];
     pendingScreenshots := [] |}.

(** [setDeviceStates(f)] *)
Definition setDeviceStates (f : Store → Store) (w : World) : World :=
  {| deviceStates := f (deviceStates w);
     currentDeviceId := currentDeviceId w;
     input := input w;
     screenshotFetchingRef := screenshotFetchingRef w;
     currentThinkingRef := currentThinkingRef w;
     currentActionsRef := currentActionsRef w;
     closedStreams := closedStreams w;
     pendingScreenshots := pendingScreenshots w |}.

(** [updateDeviceState(deviceId, updates)] *)
Definition updateDeviceState (deviceId : string) (updates : Partial.t)
    (w : World) : World :=
  setDeviceStates (updateDeviceState_updater deviceId updates) w.

(** [getCurrentDeviceState()], for a given selected device. *)
Definition getDeviceState (s : Store) (deviceId : string) : DeviceState.t :=
  default defaultDeviceState (s !! deviceId).

Definition getCurrentDeviceState (w : World) : DeviceState.t :=
  getDeviceState (deviceStates w) (currentDeviceId w).

(** The closure values of a render of [w]. *)
Definition render (w : World) : Render.t :=
  {| Render.currentDeviceId := currentDeviceId w;
     Render.currentState := getCurrentDeviceState w;
     Render.input := input w |}.

(** Assignments to the other hooks and refs. *)
Definition setCurrentDeviceId (deviceId : string) (w : World) : World :=
  {| deviceStates := deviceStates w;
     currentDeviceId := deviceId;
     input := input w;
     screenshotFetchingRef := screenshotFetchingRef w;
     currentThinkingRef := currentThinkingRef w;
     currentActionsRef := currentActionsRef w;
     closedStreams := closedStreams w;
     pendingScreenshots := pendingScreenshots w |}.

Definition setInput (text : string) (w : World) : World :=
  {| deviceStates := deviceStates w;
     currentDeviceId := currentDeviceId w;
     input := text;
     screenshotFetchingRef := screenshotFetchingRef w;
     currentThinkingRef := currentThinkingRef w;
     currentActionsRef := currentActionsRef w;
     closedStreams := closedStreams w;
     pendingScreenshots := pendingScreenshots w |}.

(** [currentThinkingRef.current = ts; currentActionsRef.current = acts] *)
Definition setStreamRefs (ts : list string) (acts : list Action) (w : World)
  : World :=
  {| deviceStates := deviceStates w;
     currentDeviceId := currentDeviceId w;
     input := input w;
     screenshotFetchingRef := screenshotFetchingRef w;
     currentThinkingRef := ts;
     currentActionsRef := acts;
     closedStreams := closedStreams w;
     pendingScreenshots := pendingScreenshots w |}.

(** [screenshotFetchingRef.current = b], together with the requests that the
    transport still has to answer. *)
Definition setScreenshotFetching (b : bool) (pending : list string)
    (w : World) : World :=
  {| deviceStates := deviceStates w;
     currentDeviceId := currentDeviceId w;
     input := input w;
     screenshotFetchingRef := b;
     currentThinkingRef := currentThinkingRef w;
     currentActionsRef := currentActionsRef w;
     closedStreams := closedStreams w;
     pendingScreenshots := pending |}.

(** [stream.close()] *)
Definition closeStream (h : StreamHandle) (w : World) : World :=
  {| deviceStates := deviceStates w;
     currentDeviceId := currentDeviceId w;
     input := input w;
     screenshotFetchingRef := screenshotFetchingRef w;
     currentThinkingRef := currentThinkingRef w;
     currentActionsRef := currentActionsRef w;
     closedStreams := h :: closedStreams w;
     pendingScreenshots := pendingScreenshots w |}.

(** ** Strings *)

(** A string is the UTF-8 encoding of the text.  [String.prototype.trim]
    removes from both ends the code points of WhiteSpace and
    LineTerminator: U+0009 to U+000D, U+0020, U+00A0, U+1680, U+2000 to
    U+200A, U+2028, U+2029, U+202F, U+205F, U+3000 and U+FEFF. *)

(** Those encoded in one byte. *)
Definition isWhiteSpace (c : ascii) : bool :=
  match nat_of_ascii c with
  | 9%nat | 10%nat | 11%nat | 12%nat | 13%nat | 32%nat => true
  | _ => false
  end.

(** U+00A0 is [C2 A0]. *)
Definition isWhiteSpace2 (b1 b2 : N) : bool :=
  ((b1 =? 194) && (b2 =? 160))%N.

(** U+1680 is [E1 9A 80]; U+2000 to U+200A, U+2028, U+2029 and U+202F are
    [E2 80 80] to [E2 80 8A], [E2 80 A8], [E2 80 A9] and [E2 80 AF]; U+205F
    is [E2 81 9F]; U+3000 is [E3 80 80]; U+FEFF is [EF BB BF]. *)
Definition isWhiteSpace3 (b1 b2 b3 : N) : bool :=
  (((b1 =? 225) && (b2 =? 154) && (b3 =? 128))
   || ((b1 =? 226) && (b2 =? 128)
       && (((128 <=? b3) && (b3 <=? 138))
           || (b3 =? 168) || (b3 =? 169) || (b3 =? 175)))
   || ((b1 =? 226) && (b2 =? 129) && (b3 =? 159))
   || ((b1 =? 227) && (b2 =? 128) && (b3 =? 128))
   || ((b1 =? 239) && (b2 =? 187) && (b3 =? 191)))%N.

(** Removes the white space code points at the head of the bytes; with
    [backwards] the bytes are those of the text read from its end, so that
    the bytes of a code point come last byte first. *)
Fixpoint trimStart (backwards : bool) (cs : list ascii) : list ascii :=
  match cs with
  | c1 :: cs1 =>
      if isWhiteSpace c1 then trimStart backwards cs1
      else
        match cs1 with
        | c2 :: cs2 =>
            if (if backwards
                then isWhiteSpace2 (N_of_ascii c2) (N_of_ascii c1)
                else isWhiteSpace2 (N_of_ascii c1) (N_of_ascii c2))
            then trimStart backwards cs2
            else
              match cs2 with
              | c3 :: cs3 =>
                  if (if backwards
                      then isWhiteSpace3 (N_of_ascii c3) (N_of_ascii c2)
                                         (N_of_ascii c1)
                      else isWhiteSpace3 (N_of_ascii c1) (N_of_ascii c2)
                                         (N_of_ascii c3))
                  then trimStart backwards cs3
                  else cs
              | [] => cs
              end
        | [] => cs
        end
  | [] => []
  end.

Definition trim (s : string) : string :=
  string_of_list_ascii
    (rev (trimStart true
            (rev (trimStart false (list_ascii_of_string s))))).

(** [n.toString()] for an integer [n]. *)
Definition toString (n : Z) : string := NilZero.string_of_int (Z.to_int n).

(** ** Display mode *)

(** The effective display mode of section 4.3 of the specification, derived
    from the preference and the failure flag. *)
Definition effectiveMode (mode : DisplayMode) (failed : bool) : DisplayMode :=
  match mode with
  | video => video
  | screenshot => screenshot
  | auto => if failed then screenshot else video
  end.

(** The condition of the screenshot polling effect:
    [displayMode === 'screenshot' ||
     (displayMode === 'auto' && videoStreamFailed)]. *)
Definition shouldPollScreenshots (currentState : DeviceState.t) : bool :=
  bool_decide (DeviceState.displayMode currentState = screenshot)
  || (bool_decide (DeviceState.displayMode currentState = auto)
      && DeviceState.videoStreamFailed currentState).

(** The condition under which the player is rendered (the device id being
    non-empty): [displayMode === 'video' ||
     (displayMode === 'auto' && useVideoStream && !videoStreamFailed)]. *)
Definition showsVideo (currentState : DeviceState.t) : bool :=
  bool_decide (DeviceState.displayMode currentState = video)
  || (bool_decide (DeviceState.displayMode currentState = auto)
      && DeviceState.useVideoStream currentState
      && negb (DeviceState.videoStreamFailed currentState)).

(** The effect returns early when [!currentDeviceId]; the JSX shows the
    player only when [currentDeviceId] is truthy. *)
Definition pollingActive (r : Render.t) : bool :=
  negb (bool_decide (Render.currentDeviceId r = ""))
  && shouldPollScreenshots (Render.currentState r).

Definition playerRendered (r : Render.t) : bool :=
  negb (bool_decide (Render.currentDeviceId r = ""))
  && showsVideo (Render.currentState r).

(** ** Handlers *)

(** [loadDevices] after [listDevices()] answered with the devices [ids]:
    [if (response.devices.length > 0 && !currentDeviceId)
       setCurrentDeviceId(response.devices[0].id)]. *)
Definition loadDevices (r : Render.t) (ids : list string) (w : World)
  : World :=
  match ids with
  | first :: _ =>
      if decide (Render.currentDeviceId r = "") then setCurrentDeviceId first w
      else w
  | [] => w
  end.

(** [fetchScreenshot], up to its [await]: a tick that finds the guard set
    returns at once; otherwise it sets the guard and calls [getScreenshot]. *)
Definition fetchScreenshot (deviceId : string) (w : World) : World :=
  if screenshotFetchingRef w then w
  else setScreenshotFetching true (deviceId :: pendingScreenshots w) w.

(** Removes one pending request for [deviceId]; [None] when there is none. *)
Fixpoint answer (deviceId : string) (pending : list string)
  : option (list string) :=
  match pending with
  | [] => None
  | d :: rest =>
      if decide (d = deviceId) then Some rest
      else option_map (cons d) (answer deviceId rest)
  end.

(** [fetchScreenshot] resumed with the response [data]:
    [if (data.success) updateDeviceState(currentDeviceId, {screenshot: data})]
    and then the [finally] block.  A response to a request that was never
    made is not an event of the program and leaves the component as it is. *)
Definition fetchScreenshot_resolved (deviceId : string)
    (data : ScreenshotResponse.t) (w : World) : World :=
  match answer deviceId (pendingScreenshots w) with
  | None => w
  | Some pending =>
      let w1 :=
        if ScreenshotResponse.success data
        then updateDeviceState deviceId (Partial.Screenshot (Some data)) w
        else w in
      setScreenshotFetching false pending w1
  end.

(** [fetchScreenshot] resumed in its [catch] block, then [finally]. *)
Definition fetchScreenshot_rejected (deviceId : string) (w : World) : World :=
  match answer deviceId (pendingScreenshots w) with
  | None => w
  | Some pending => setScreenshotFetching false pending w
  end.

(** [handleInit(deviceId)] after [initAgent] settled: [failure] is [None]
    when it resolved and the text put in [error] when it threw. *)
Definition handleInit (deviceId : string) (failure : option string)
    (w : World) : World :=
  match failure with
  | None =>
      updateDeviceState deviceId
        (Partial.lit [Partial.Initialized true; Partial.Error None]) w
  | Some text => updateDeviceState deviceId (Partial.Error (Some text)) w
  end.

(** [msg => msg.id === agentMessageId ? f(msg) : msg], mapped over the
    messages. *)
Definition mapPlaceholder (agentMessageId : string)
    (f : Message.t → Message.t) (messages : list Message.t)
  : list Message.t :=
  (λ msg, if decide (Message.id msg = agentMessageId) then f msg else msg)
    <$> messages.

(** [{ ...msg, thinking: [...], actions: [...], steps: event.step }] *)
Definition withStep (ts : list string) (acts : list Action) (step : Z)
    (msg : Message.t) : Message.t :=
  {| Message.id := Message.id msg;
     Message.role := Message.role msg;
     Message.content := Message.content msg;
     Message.timestamp := Message.timestamp msg;
     Message.steps := Some step;
     Message.success := Message.success msg;
     Message.thinking := Some ts;
     Message.actions := Some acts;
     Message.isStreaming := Message.isStreaming msg |}.

(** [{ ...msg, content: c, success: s, isStreaming: false }] *)
Definition withResult (c : string) (s : bool) (msg : Message.t)
  : Message.t :=
  {| Message.id := Message.id msg;
     Message.role := Message.role msg;
     Message.content := c;
     Message.timestamp := Message.timestamp msg;
     Message.steps := Message.steps msg;
     Message.success := Some s;
     Message.thinking := Message.thinking msg;
     Message.actions := Message.actions msg;
     Message.isStreaming := Some false |}.

(** The updater of the [onStep] callback; [ts] and [acts] are the contents of
    the two refs when it runs. *)
Definition onStep_updater (deviceId agentMessageId : string)
    (ts : list string) (acts : list Action) (step : Z) (prev : Store)
  : Store :=
  match prev !! deviceId with
  | None => prev
  | Some state =>
      let updatedMessages :=
        mapPlaceholder agentMessageId (withStep ts acts step)
                       (DeviceState.messages state) in
      <[deviceId := spread state (Partial.Messages updatedMessages)]> prev
  end.

(** The [onStep] callback of the send bound to [deviceId] and
    [agentMessageId], with its updater applied right after the call: push
    to the two refs, then the updater, which reads the refs as they are at
    that moment.  When other calls come between the call and the
    application, the refs read are those of the later moment: see
    [batch]. *)
Definition onStep (deviceId agentMessageId : string) (event : StepEvent.t)
    (w : World) : World :=
  let w1 :=
    setStreamRefs (currentThinkingRef w ++ [StepEvent.thinking event])
                  (currentActionsRef w ++ [StepEvent.action event]) w in
  setDeviceStates
    (onStep_updater deviceId agentMessageId (currentThinkingRef w1)
                    (currentActionsRef w1) (StepEvent.step event)) w1.

(** The updater of the [onDone] callback. *)
Definition onDone_updater (deviceId agentMessageId : string)
    (event : DoneEvent.t) (prev : Store) : Store :=
  match prev !! deviceId with
  | None => prev
  | Some state =>
      let updatedMessages :=
        mapPlaceholder agentMessageId
          (withResult (DoneEvent.message event) (DoneEvent.success event))
          (DeviceState.messages state) in
      <[deviceId :=
          spread state
            (Partial.lit [Partial.Messages updatedMessages;
                          Partial.Loading false;
                          Partial.CurrentStream None])]> prev
  end.

Definition onDone (deviceId agentMessageId : string) (event : DoneEvent.t)
    (w : World) : World :=
  setDeviceStates (onDone_updater deviceId agentMessageId event) w.

(** The template literal of the [onError] callback. *)
Definition errorContent (message : string) : string := "错误: " +:+ message.

(** The updater of the [onError] callback. *)
Definition onError_updater (deviceId agentMessageId : string)
    (event : ErrorEvent.t) (prev : Store) : Store :=
  match prev !! deviceId with
  | None => prev
  | Some state =>
      let updatedMessages :=
        mapPlaceholder agentMessageId
          (withResult (errorContent (ErrorEvent.message event)) false)
          (DeviceState.messages state) in
      <[deviceId :=
          spread state
            (Partial.lit [Partial.Messages updatedMessages;
                          Partial.Loading false;
                          Partial.CurrentStream None;
                          Partial.Error (Some (ErrorEvent.message event))])]>
        prev
  end.

Definition onError (deviceId agentMessageId : string) (event : ErrorEvent.t)
    (w : World) : World :=
  setDeviceStates (onError_updater deviceId agentMessageId event) w.

Module Send.
(** What the environment supplies to one run of [handleSend]: the two values
    of [Date.now()], the two [new Date()] and the handle returned by
    [sendMessageStream]. *)
Record t := mk {
  now1 : Z;
  date1 : Z;
  now2 : Z;
  date2 : Z;
  stream : StreamHandle;
}.
End Send.

(** [const userMessage = { id: Date.now().toString(), role: 'user',
                          content: input.trim(), timestamp: new Date() }] *)
Definition userMessage (r : Render.t) (e : Send.t) : Message.t :=
  {| Message.id := toString (Send.now1 e);
     Message.role := user;
     Message.content := trim (Render.input r);
     Message.timestamp := Send.date1 e;
     Message.steps := None;
     Message.success := None;
     Message.thinking := None;
     Message.actions := None;
     Message.isStreaming := None |}.

(** [const agentMessageId = (Date.now() + 1).toString()] *)
Definition agentMessageId (e : Send.t) : string := toString (Send.now2 e + 1).

(** [const agentMessage = { id: agentMessageId, role: 'agent', content: '',
       timestamp: new Date(), thinking: [], actions: [], isStreaming: true }] *)
Definition agentMessage (e : Send.t) : Message.t :=
  {| Message.id := agentMessageId e;
     Message.role := agent;
     Message.content := "";
     Message.timestamp := Send.date2 e;
     Message.steps := None;
     Message.success := None;
     Message.thinking := Some [];
     Message.actions := Some [];
     Message.isStreaming := Some true |}.

(** The two guards at the head of [handleSend]:
    [if (!input.trim() || currentState.loading) return;] and
    [if (!currentDeviceId) { alert(...); return; }]. *)
Definition handleSend_proceeds (r : Render.t) : bool :=
  negb (bool_decide (trim (Render.input r) = "")
        || DeviceState.loading (Render.currentState r))
  && negb (bool_decide (Render.currentDeviceId r = "")).

(** [handleSend], from the point where it runs without interruption: when
    the device is not yet initialized it first awaits [handleInit], which is
    the handler of that name and runs before this one.  The store updates
    are those of the source, in order; the stream callbacks it registers are
    [onStep], [onDone] and [onError] bound to [Render.currentDeviceId r] and
    [agentMessageId e]. *)
Definition handleSend (r : Render.t) (e : Send.t) (w : World) : World :=
  if handleSend_proceeds r then
    let deviceId := Render.currentDeviceId r in
    let messages := DeviceState.messages (Render.currentState r) in
    let w1 :=
      updateDeviceState deviceId
        (Partial.lit [Partial.Messages (messages ++ [userMessage r e]);
                      Partial.Loading true;
                      Partial.Error None]) w in
    let w2 := setInput "" w1 in
    let w3 := setStreamRefs [] [] w2 in
    let w4 :=
      updateDeviceState deviceId
        (Partial.Messages (messages ++ [userMessage r e; agentMessage e]))
        w3 in
    updateDeviceState deviceId
      (Partial.CurrentStream (Some (Send.stream e))) w4
  else w.

(** [handleReset], up to its [await resetChat(currentDeviceId)]. *)
Definition handleReset (r : Render.t) (w : World) : World :=
  if decide (Render.currentDeviceId r = "") then w
  else
    let w1 :=
      match DeviceState.currentStream (Render.currentState r) with
      | Some h => closeStream h w
      | None => w
      end in
    updateDeviceState (Render.currentDeviceId r)
      (Partial.lit [Partial.Messages [];
                    Partial.Loading false;
                    Partial.Error None;
                    Partial.CurrentStream None]) w1.

(** [handleDeviceChange(deviceId)] *)
Definition handleDeviceChange (r : Render.t) (deviceId : string) (w : World)
  : World :=
  let w1 :=
    match DeviceState.currentStream (Render.currentState r) with
    | Some h =>
        updateDeviceState (Render.currentDeviceId r)
          (Partial.CurrentStream None) (closeStream h w)
    | None => w
    end in
  setCurrentDeviceId deviceId w1.

(** The three mode buttons:
    [updateDeviceState(currentDeviceId, { displayMode: mode })]. *)
Definition setDisplayMode (deviceId : string) (mode : DisplayMode)
    (w : World) : World :=
  updateDeviceState deviceId (Partial.DisplayMode mode) w.

(** The [onFallback] callback given to the player. *)
Definition onFallback (deviceId : string) (w : World) : World :=
  updateDeviceState deviceId
    (Partial.lit [Partial.VideoStreamFailed true;
                  Partial.UseVideoStream false]) w.

(** The tap and swipe callbacks given to the player, and the callback of
    the timers they start. *)
Definition onTapSuccess (deviceId : string) (w : World) : World :=
  updateDeviceState deviceId (Partial.TapFeedback (Some "Tap executed")) w.

Definition onTapError (deviceId error : string) (w : World) : World :=
  updateDeviceState deviceId
    (Partial.TapFeedback (Some ("Tap failed: " +:+ error))) w.

Definition onSwipeSuccess (deviceId : string) (w : World) : World :=
  updateDeviceState deviceId (Partial.TapFeedback (Some "Swipe executed")) w.

Definition onSwipeError (deviceId error : string) (w : World) : World :=
  updateDeviceState deviceId
    (Partial.TapFeedback (Some ("Swipe failed: " +:+ error))) w.

Definition clearTapFeedback (deviceId : string) (w : World) : World :=
  updateDeviceState deviceId (Partial.TapFeedback None) w.

(** ** Runs of the component *)

(** Everything that can happen to the mounted component: a user action, a
    timer, or the transport calling back.  A handler that closes over a
    render carries that render. *)
Inductive Event :=
  | LoadDevices (r : Render.t) (ids : list string)
  | InputChange (text : string)
  | FetchScreenshot (deviceId : string)
  | ScreenshotResolved (deviceId : string) (data : ScreenshotResponse.t)
  | ScreenshotRejected (deviceId : string)
  | HandleInit (deviceId : string) (failure : option string)
  | HandleSend (r : Render.t) (e : Send.t)
  | OnStep (deviceId agentMessageId : string) (event : StepEvent.t)
  | OnDone (deviceId agentMessageId : string) (event : DoneEvent.t)
  | OnError (deviceId agentMessageId : string) (event : ErrorEvent.t)
  | HandleReset (r : Render.t)
  | HandleDeviceChange (r : Render.t) (deviceId : string)
  | SetDisplayMode (deviceId : string) (mode : DisplayMode)
  | OnFallback (deviceId : string)
  | OnTapSuccess (deviceId : string)
  | OnTapError (deviceId error : string)
  | OnSwipeSuccess (deviceId : string)
  | OnSwipeError (deviceId error : string)
  | ClearTapFeedback (deviceId : string).

Definition handle (ev : Event) (w : World) : World :=
  match ev with
  | LoadDevices r ids => loadDevices r ids w
  | InputChange text => setInput text w
  | FetchScreenshot d => fetchScreenshot d w
  | ScreenshotResolved d data => fetchScreenshot_resolved d data w
  | ScreenshotRejected d => fetchScreenshot_rejected d w
  | HandleInit d failure => handleInit d failure w
  | HandleSend r e => handleSend r e w
  | OnStep d a event => onStep d a event w
  | OnDone d a event => onDone d a event w
  | OnError d a event => onError d a event w
  | HandleReset r => handleReset r w
  | HandleDeviceChange r d => handleDeviceChange r d w
  | SetDisplayMode d mode => setDisplayMode d mode w
  | OnFallback d => onFallback d w
  | OnTapSuccess d => onTapSuccess d w
  | OnTapError d error => onTapError d error w
  | OnSwipeSuccess d => onSwipeSuccess d w
  | OnSwipeError d error => onSwipeError d error w
  | ClearTapFeedback d => clearTapFeedback d w
  end.

(** The events of a run are handled one after the other. *)
Definition run (evs : list Event) (w : World) : World :=
  fold_left (λ w ev, handle ev w) evs w.

(** A state of the component is reachable when some run from the mounted
    component ends in it. *)
Definition reachable (w : World) : Prop :=
  ∃ evs, w = run evs initialWorld.

(** * Vocabulary of the properties *)

(** ** The two video flags *)

Definition videoFlags (st : DeviceState.t) : bool * bool :=
  (DeviceState.useVideoStream st, DeviceState.videoStreamFailed st).

(** The fallback signal of the player. *)
Definition isFallback (ev : Event) : bool :=
  match ev with
  | OnFallback _ => true
  | _ => false
  end.

(** What a handler may do to the record of one device, as far as the two
    flags are concerned: leave the entry alone, write a record with the flags
    of the record it read (the default record when there was none), or, for
    the fallback signal only, write a record with the flags [false] and
    [true]. *)
Inductive flags_step (fallback : bool) (o : option DeviceState.t)
  : option DeviceState.t → Prop :=
  | flags_same : flags_step fallback o o
  | flags_kept st' :
      videoFlags st' = videoFlags (default defaultDeviceState o) →
      flags_step fallback o (Some st')
  | flags_fallback st' :
      fallback = true →
      videoFlags st' = (false, true) → flags_step fallback o (Some st').

(** A partial update that names neither flag. *)
Definition flags_absent (p : Partial.t) : Prop :=
  Partial.useVideoStream p = None ∧ Partial.videoStreamFailed p = None.

(** The device has a record whose [videoStreamFailed] is set. *)
Definition failed_latched (deviceId : string) (w : World) : Prop :=
  ∃ st, deviceStates w !! deviceId = Some st
        ∧ DeviceState.videoStreamFailed st = true.

(** [useVideoStream] is the negation of [videoStreamFailed]. *)
Definition flags_agree (st : DeviceState.t) : Prop :=
  DeviceState.useVideoStream st = negb (DeviceState.videoStreamFailed st).

(** The guard of the polling loop tells whether a request is in flight, and
    at most one is. *)
Definition polling_guarded (w : World) : Prop :=
  (length (pendingScreenshots w) ≤ 1)%nat
  ∧ screenshotFetchingRef w = negb (bool_decide (pendingScreenshots w = [])).

(** A step or done event of a send bound to the device [d]. *)
Definition stepOrDoneOf (d : string) (ev : Event) : bool :=
  match ev with
  | OnStep d' _ _ | OnDone d' _ _ => bool_decide (d' = d)
  | _ => false
  end.

(** The record that [handleReset] leaves for a device. *)
Definition cleared (st : DeviceState.t) : Prop :=
  DeviceState.messages st = []
  ∧ DeviceState.loading st = false
  ∧ DeviceState.error st = None
  ∧ DeviceState.currentStream st = None.

(** An event that concerns neither the device [d] nor the two refs of the
    stream: an update of another device, or of no device at all. *)
Definition elsewhere (d : string) (ev : Event) : bool :=
  match ev with
  | LoadDevices _ _ | InputChange _ | FetchScreenshot _
  | ScreenshotRejected _ => true
  | ScreenshotResolved d' _ | HandleInit d' _
  | OnDone d' _ _ | OnError d' _ _
  | SetDisplayMode d' _ | OnFallback d'
  | OnTapSuccess d' | OnTapError d' _
  | OnSwipeSuccess d' | OnSwipeError d' _
  | ClearTapFeedback d' => bool_decide (d' ≠ d)
  | HandleReset r | HandleDeviceChange r _ =>
      bool_decide (Render.currentDeviceId r ≠ d)
  | HandleSend _ _ | OnStep _ _ _ => false
  end.

(** The step event that [ev] delivers to the send bound to [d] and [a]. *)
Definition ownStep (d a : string) (ev : Event) : option StepEvent.t :=
  match ev with
  | OnStep d' a' event =>
      if decide (d' = d ∧ a' = a) then Some event else None
  | _ => None
  end.

(** The step events delivered to that send by a run, in order. *)
Definition stepsOf (d a : string) (evs : list Event) : list StepEvent.t :=
  omap (ownStep d a) evs.

(** A run made of step events of that send and of events elsewhere. *)
Definition interleaving (d a : string) (evs : list Event) : Prop :=
  Forall (λ ev, is_Some (ownStep d a ev) ∨ elsewhere d ev = true) evs.

(** What the messages of the device have become once the steps [steps] were
    folded into the list [sent]. *)
Definition folded (a : string) (steps : list StepEvent.t)
    (sent : list Message.t) : list Message.t :=
  match last steps with
  | None => sent
  | Some event =>
      mapPlaceholder a
        (withStep (StepEvent.thinking <$> steps) (StepEvent.action <$> steps)
                  (StepEvent.step event)) sent
  end.

(** The refs hold what the steps delivered, and the device's messages are
    [sent] with those steps folded in. *)
Definition accumulated (d a : string) (sent : list Message.t)
    (steps : list StepEvent.t) (w : World) : Prop :=
  currentThinkingRef w = StepEvent.thinking <$> steps
  ∧ currentActionsRef w = StepEvent.action <$> steps
  ∧ ∃ st, deviceStates w !! d = Some st
          ∧ DeviceState.messages st = folded a steps sent.

(** * Scenarios

    Concrete runs of the component, used to evaluate the handlers. *)

Module Scenario.

(** The device list arrived with one device, which was selected, and the
    user typed a task. *)
Definition typed : World :=
  run [LoadDevices (render initialWorld) ["D1"];
       InputChange "open camera"] initialWorld.

(** The device was initialised with the button before anything was sent. *)
Definition ready : World := handleInit "D1" None typed.

Definition send1 : Send.t :=
  {| Send.now1 := 1700000000000; Send.date1 := 1700000000000;
     Send.now2 := 1700000000000; Send.date2 := 1700000000000;
     Send.stream := 1%nat |}.

Definition send2 : Send.t :=
  {| Send.now1 := 1700000000250; Send.date1 := 1700000000250;
     Send.now2 := 1700000000250; Send.date2 := 1700000000250;
     Send.stream := 2%nat |}.

Definition stepA : StepEvent.t :=
  {| StepEvent.step := 1;
     StepEvent.thinking := "find the camera icon";
     StepEvent.action := "Tap(540,1200)" |}.

Definition stepB : StepEvent.t :=
  {| StepEvent.step := 2;
     StepEvent.thinking := "the camera is open";
     StepEvent.action := "Finish" |}.

Definition finished : DoneEvent.t :=
  {| DoneEvent.message := "Done"; DoneEvent.success := true |}.

(** The user sends the task on the initialised device: the stream of
    [send1] is open. *)
Definition streaming : World := handleSend (render ready) send1 ready.

(** The stream delivers its [done] event. *)
Definition completed : World :=
  onDone "D1" (agentMessageId send1) finished streaming.

(** The user switches to another device while that stream is open, and a
    step event arrives on the handle that the switch closed. *)
Definition switched : World :=
  handleDeviceChange (render streaming) "D2" streaming.

Definition lateStep : World :=
  onStep "D1" (agentMessageId send1) stepA switched.

(** The user resets the conversation while that stream is open, and an error
    event arrives on the handle that the reset closed. *)
Definition wiped : World := handleReset (render streaming) streaming.

Definition lateError : World :=
  onError "D1" (agentMessageId send1)
          {| ErrorEvent.message := "connection lost" |} wiped.

(** Two devices.  The user presses send on D1, whose [handleSend] awaits
    [handleInit]; meanwhile the user switches to D2 and presses send there.
    The initialisation of D2 settles first and its stream delivers a step;
    then the initialisation of D1 settles and the suspended [handleSend]
    resumes with the render it captured; then the stream of D2 delivers its
    second step. *)
Definition listed : World :=
  run [LoadDevices (render initialWorld) ["D1"; "D2"];
       InputChange "open camera"] initialWorld.

Definition onD2 : World := handleDeviceChange (render listed) "D2" listed.

Definition crossedRun : list Event :=
  [HandleInit "D2" None;
   HandleSend (render onD2) send1;
   OnStep "D2" (agentMessageId send1) stepA;
   HandleInit "D1" None;
   HandleSend (render listed) send2;
   OnStep "D2" (agentMessageId send1) stepB].

Definition crossed : World := run crossedRun onD2.

(** One device, not yet initialised.  The user presses send twice while
    [initAgent] is pending: both runs of [handleSend] captured the render of
    [typed] and await [handleInit]; the first resumes when its
    initialisation settles, then the second. *)
Definition firstSent : World :=
  run [HandleInit "D1" None; HandleSend (render typed) send1] typed.

Definition doubled : World :=
  run [HandleInit "D1" None; HandleSend (render typed) send2] firstSent.

(** The messages and the [thinking] members of the messages of a device, in
    order. *)
Definition messagesOf (deviceId : string) (w : World) : list Message.t :=
  DeviceState.messages (getDeviceState (deviceStates w) deviceId).


Definition thinkingOf (deviceId : string) (w : World)
  : list (option (list string)) :=
  Message.thinking
    <$> DeviceState.messages (getDeviceState (deviceStates w) deviceId).

End Scenario.

(** * The rest of the component

    Further parts of [chat.tsx]: what each handler writes to the store,
    seen as one literal; the conditions of the JSX; the keyboard handler;
    the device list poll. *)

From Stdlib Require DecimalZ.

(** ** What a handler writes *)

(** The literal that an event merges into the record of the device [d], if
    it writes that record at all.  It is shown further down that this is
    the whole effect of the event on the store. *)
Definition written (ev : Event) (w : World) (d : string)
  : option Partial.t :=
  match ev with
  | LoadDevices _ _ | InputChange _ | FetchScreenshot _
  | ScreenshotRejected _ => None
  | ScreenshotResolved d' data =>
      if decide (d' = d) then
        match answer d' (pendingScreenshots w) with
        | Some _ =>
            if ScreenshotResponse.success data
            then Some (Partial.Screenshot (Some data))
            else None
        | None => None
        end
      else None
  | HandleInit d' failure =>
      if decide (d' = d) then
        match failure with
        | None =>
            Some (Partial.lit [Partial.Initialized true; Partial.Error None])
        | Some text => Some (Partial.Error (Some text))
        end
      else None
  | HandleSend r e =>
      if decide (Render.currentDeviceId r = d) then
        if handleSend_proceeds r then
          Some (Partial.lit
                  [Partial.Messages
                     (DeviceState.messages (Render.currentState r)
                      ++ [userMessage r e; agentMessage e]);
                   Partial.Loading true;
                   Partial.Error None;
                   Partial.CurrentStream (Some (Send.stream e))])
        else None
      else None
  | OnStep d' a event =>
      if decide (d' = d) then
        state ← deviceStates w !! d;
        Some (Partial.Messages
                (mapPlaceholder a
                   (withStep
                      (currentThinkingRef w ++ [StepEvent.thinking event])
                      (currentActionsRef w ++ [StepEvent.action event])
                      (StepEvent.step event))
                   (DeviceState.messages state)))
      else None
  | OnDone d' a event =>
      if decide (d' = d) then
        state ← deviceStates w !! d;
        Some (Partial.lit
                [Partial.Messages
                   (mapPlaceholder a
                      (withResult (DoneEvent.message event)
                                  (DoneEvent.success event))
                      (DeviceState.messages state));
                 Partial.Loading false;
                 Partial.CurrentStream None])
      else None
  | OnError d' a event =>
      if decide (d' = d) then
        state ← deviceStates w !! d;
        Some (Partial.lit
                [Partial.Messages
                   (mapPlaceholder a
                      (withResult (errorContent (ErrorEvent.message event))
                                  false)
                      (DeviceState.messages state));
                 Partial.Loading false;
                 Partial.CurrentStream None;
                 Partial.Error (Some (ErrorEvent.message event))])
      else None
  | HandleReset r =>
      if decide (Render.currentDeviceId r = d) then
        if decide (Render.currentDeviceId r = "") then None
        else Some (Partial.lit [Partial.Messages [];
                                Partial.Loading false;
                                Partial.Error None;
                                Partial.CurrentStream None])
      else None
  | HandleDeviceChange r _ =>
      if decide (Render.currentDeviceId r = d) then
        match DeviceState.currentStream (Render.currentState r) with
        | Some _ => Some (Partial.CurrentStream None)
        | None => None
        end
      else None
  | SetDisplayMode d' mode =>
      if decide (d' = d) then Some (Partial.DisplayMode mode) else None
  | OnFallback d' =>
      if decide (d' = d) then
        Some (Partial.lit [Partial.VideoStreamFailed true;
                           Partial.UseVideoStream false])
      else None
  | OnTapSuccess d' =>
      if decide (d' = d) then Some (Partial.TapFeedback (Some "Tap executed"))
      else None
  | OnTapError d' error =>
      if decide (d' = d)
      then Some (Partial.TapFeedback (Some ("Tap failed: " +:+ error)))
      else None
  | OnSwipeSuccess d' =>
      if decide (d' = d)
      then Some (Partial.TapFeedback (Some "Swipe executed"))
      else None
  | OnSwipeError d' error =>
      if decide (d' = d)
      then Some (Partial.TapFeedback (Some ("Swipe failed: " +:+ error)))
      else None
  | ClearTapFeedback d' =>
      if decide (d' = d) then Some (Partial.TapFeedback None) else None
  end.

(** An event that may clear [loading] of the device [d]: a done or error
    event of one of its sends, or a reset of it. *)
Definition clearsLoading (d : string) (ev : Event) : bool :=
  match ev with
  | OnDone d' _ _ | OnError d' _ _ => bool_decide (d' = d)
  | HandleReset r => bool_decide (Render.currentDeviceId r = d)
  | _ => false
  end.

(** The device has a record with [initialized] set. *)
Definition initialized_latched (d : string) (w : World) : Prop :=
  ∃ st, deviceStates w !! d = Some st ∧ DeviceState.initialized st = true.

(** The device has a record with [loading] set. *)
Definition loading_set (d : string) (w : World) : Prop :=
  ∃ st, deviceStates w !! d = Some st ∧ DeviceState.loading st = true.

(** Every screenshot held in the store is one that reported success. *)
Definition screenshots_succeeded (w : World) : Prop :=
  ∀ d st shot,
    deviceStates w !! d = Some st →
    DeviceState.screenshot st = Some shot →
    ScreenshotResponse.success shot = true.

(** ** Calls that React batches

    Between the call of a handler and the moment React applies the updaters
    it queued, other handlers may be called.  A batch is a list of calls
    followed by one application of the queue. *)

(** [w] with the store [s]. *)
Definition withStore (s : Store) (w : World) : World :=
  setDeviceStates (λ _, s) w.

(** An updater in the queue: a function of the store it is applied to and
    of what the two refs hold at that moment. *)
Definition Updater : Type := list string → list Action → Store → Store.

(** What the call of a handler does at once: everything but the store. *)
Definition called (ev : Event) (w : World) : World :=
  withStore (deviceStates w) (handle ev w).

(** What the call of a handler puts in the queue.  The updater of [onStep]
    reads the refs when applied; the updaters of the other handlers read
    only [prev], and are their store updates in order. *)
Definition queued (ev : Event) (w : World) : Updater :=
  match ev with
  | OnStep d a event =>
      λ ts acts prev, onStep_updater d a ts acts (StepEvent.step event) prev
  | _ => λ _ _ prev, deviceStates (handle ev (withStore prev w))
  end.

(** The calls of a batch, one after the other: the component after them,
    its store untouched, and the queue. *)
Fixpoint calls (evs : list Event) (w : World) : World * list Updater :=
  match evs with
  | [] => (w, [])
  | ev :: evs' =>
      let rest := calls evs' (called ev w) in
      (rest.1, queued ev w :: rest.2)
  end.

(** The application of a queue, in order, the refs holding [ts] and
    [acts]. *)
Definition flush (q : list Updater) (ts : list string) (acts : list Action)
    (s : Store) : Store :=
  fold_left (λ s (u : Updater), u ts acts s) q s.

(** A batch: the calls, then the queue applied with the refs as the calls
    left them. *)
Definition batch (evs : list Event) (w : World) : World :=
  let after := calls evs w in
  withStore
    (flush after.2 (currentThinkingRef after.1) (currentActionsRef after.1)
           (deviceStates w))
    after.1.

(** Batches, one after the other. *)
Definition batches (bs : list (list Event)) (w : World) : World :=
  fold_left (λ w evs, batch evs w) bs w.


(** ** The conditions of the JSX *)

(** The send button:
    [disabled={!currentDeviceId || currentState.loading || !input.trim()}]. *)
Definition sendDisabled (r : Render.t) : bool :=
  bool_decide (Render.currentDeviceId r = "")
  || DeviceState.loading (Render.currentState r)
  || bool_decide (trim (Render.input r) = "").

(** The text input: [disabled={!currentDeviceId || currentState.loading}]. *)
Definition inputDisabled (r : Render.t) : bool :=
  bool_decide (Render.currentDeviceId r = "")
  || DeviceState.loading (Render.currentState r).

(** The reset button: [disabled={!currentDeviceId}]. *)
Definition resetDisabled (r : Render.t) : bool :=
  bool_decide (Render.currentDeviceId r = "").

(** What the header shows beside the device selector:
    [currentDeviceId && !currentState.initialized ? <button> :
     currentDeviceId ? <span> : null]. *)
Inductive HeaderStatus := InitButton | InitializedBadge | NoStatus.

Definition headerStatus (r : Render.t) : HeaderStatus :=
  if negb (bool_decide (Render.currentDeviceId r = ""))
     && negb (DeviceState.initialized (Render.currentState r))
  then InitButton
  else if negb (bool_decide (Render.currentDeviceId r = ""))
  then InitializedBadge
  else NoStatus.

(** The placeholder of the text input. *)
Definition inputPlaceholder (r : Render.t) : string :=
  if bool_decide (Render.currentDeviceId r = "") then "请先选择设备"
  else if negb (DeviceState.initialized (Render.currentState r))
  then "请先初始化设备"
  else "输入任务描述...".

(** The hint above the message list:
    [!currentDeviceId ? welcome :
     currentState.messages.length === 0 ? deviceSelected : null]. *)
Inductive Hint := WelcomeHint | DeviceSelectedHint | NoHint.

Definition hint (r : Render.t) : Hint :=
  if bool_decide (Render.currentDeviceId r = "") then WelcomeHint
  else if bool_decide (length (DeviceState.messages (Render.currentState r))
                       = 0%nat)
  then DeviceSelectedHint
  else NoHint.

(** The right-hand pane.  A screenshot is laid out by
    [width > height ? landscape : portrait] (a missing dimension makes the
    comparison false); the badge for sensitive content and the note that
    the video stream is unavailable are the two flags that follow. *)
Inductive Pane :=
  | PlayerPane
  | ScreenshotPane (landscape sensitive unavailableNote : bool)
  | ScreenshotErrorPane (error : string)
  | LoadingPane
  | NoDevicePane.

Definition landscape (shot : ScreenshotResponse.t) : bool :=
  match ScreenshotResponse.width shot, ScreenshotResponse.height shot with
  | Some width, Some height => bool_decide (height < width)
  | _, _ => false
  end.

(** [currentDeviceId && (video condition) ? player :
     currentDeviceId ?
       (screenshot && screenshot.success ? image :
        screenshot?.error ? error : spinner) :
     no device]. *)
Definition pane (r : Render.t) : Pane :=
  let currentState := Render.currentState r in
  if playerRendered r then PlayerPane
  else if negb (bool_decide (Render.currentDeviceId r = "")) then
    match DeviceState.screenshot currentState with
    | Some shot =>
        if ScreenshotResponse.success shot then
          ScreenshotPane
            (landscape shot)
            (default false (ScreenshotResponse.is_sensitive shot))
            (bool_decide (DeviceState.displayMode currentState = auto)
             && DeviceState.videoStreamFailed currentState)
        else
          match ScreenshotResponse.error shot with
          | Some error =>
              if bool_decide (error = "") then LoadingPane
              else ScreenshotErrorPane error
          | None => LoadingPane
          end
    | None => LoadingPane
    end
  else NoDevicePane.

(** ** The keyboard handler *)

Module KeyboardEvent.
(** The members of [React.KeyboardEvent] that [handleInputKeyDown] reads. *)
Record t := mk { key : string; metaKey : bool; ctrlKey : bool }.
End KeyboardEvent.

(** [handleInputKeyDown]: whether it calls [event.preventDefault()] and
    [handleSend()]:
    [event.key === 'Enter' && (event.metaKey || event.ctrlKey)]. *)
Definition handleInputKeyDown (event : KeyboardEvent.t) : bool :=
  bool_decide (KeyboardEvent.key event = "Enter")
  && (KeyboardEvent.metaKey event || KeyboardEvent.ctrlKey event).

(** The key press as a step of the component, with the render that the
    handler captured. *)
Definition keyDown (event : KeyboardEvent.t) (r : Render.t) (e : Send.t)
    (w : World) : World :=
  if handleInputKeyDown event then handleSend r e w else w.


(** ** The device list poll *)

(** One poll of the device list that is answered before anything else
    happens: [loadDevices] as created by the current render, resumed with
    the ids of the response. *)
Definition refresh (w : World) (ids : list string) : World :=
  loadDevices (render w) ids w.

(** * The device card

    [frontend/src/components/DeviceCard.tsx]: the card of one device, with
    its two Wi-Fi buttons, the two confirmation dialogs and the [loading]
    flag that covers a connect or disconnect call. *)

Module DeviceCard.

(** [interface DeviceCardProps]; of the two optional callbacks only their
    presence matters here. *)
Record Props := mkProps {
  id : string;
  model : string;
  status : string;
  connectionType : option string;
  deviceType : option string;
  isInitialized : bool;
  isActive : bool;
  onConnectWifi : bool;
  onDisconnectWifi : bool;
}.

(** The three [useState] hooks, and the number of calls of
    [onConnectWifi] or [onDisconnectWifi] that have not settled yet. *)
Record State := mkState {
  loading : bool;
  showWifiConfirm : bool;
  showDisconnectConfirm : bool;
  awaiting : nat;
}.

Definition mounted : State := mkState false false false 0.

(** [const isUsb = connectionType === 'usb'] and
    [const isRemote = connectionType === 'remote']. *)
Definition isUsb (p : Props) : bool :=
  bool_decide (connectionType p = Some "usb").
Definition isRemote (p : Props) : bool :=
  bool_decide (connectionType p = Some "remote").

(** [{isUsb && onConnectWifi && <Button .../>}] and
    [{isRemote && onDisconnectWifi && <Button .../>}]. *)
Definition wifiButton (p : Props) : bool := isUsb p && onConnectWifi p.
Definition disconnectButton (p : Props) : bool :=
  isRemote p && onDisconnectWifi p.

(** [handleWifiClick]:
    [if (loading || !onConnectWifi) return; setShowWifiConfirm(true)]. *)
Definition handleWifiClick (p : Props) (s : State) : State :=
  if loading s || negb (onConnectWifi p) then s
  else mkState (loading s) true (showDisconnectConfirm s) (awaiting s).

(** [handleDisconnectClick] *)
Definition handleDisconnectClick (p : Props) (s : State) : State :=
  if loading s || negb (onDisconnectWifi p) then s
  else mkState (loading s) (showWifiConfirm s) true (awaiting s).

(** [handleConfirmWifi], up to its [await]: the dialog is closed and
    [loading] set; with the callback present the call is awaited, without
    it the [finally] block runs at once. *)
Definition handleConfirmWifi (p : Props) (s : State) : State :=
  if onConnectWifi p
  then mkState true false (showDisconnectConfirm s) (S (awaiting s))
  else mkState false false (showDisconnectConfirm s) (awaiting s).

(** [handleConfirmDisconnect], up to its [await]. *)
Definition handleConfirmDisconnect (p : Props) (s : State) : State :=
  if onDisconnectWifi p
  then mkState true (showWifiConfirm s) false (S (awaiting s))
  else mkState false (showWifiConfirm s) false (awaiting s).

(** The [finally] block of either handler, run when the awaited call
    resolves or throws: [setLoading(false)]. *)
Definition settled (s : State) : State :=
  mkState false (showWifiConfirm s) (showDisconnectConfirm s)
          (pred (awaiting s)).

(** [onCancel={() => setShowWifiConfirm(false)}] and its twin. *)
Definition cancelWifi (s : State) : State :=
  mkState (loading s) false (showDisconnectConfirm s) (awaiting s).
Definition cancelDisconnect (s : State) : State :=
  mkState (loading s) (showWifiConfirm s) false (awaiting s).

Inductive Event :=
  | WifiClick
  | DisconnectClick
  | ConfirmWifi
  | CancelWifi
  | ConfirmDisconnect
  | CancelDisconnect
  | Settled.

(** What the rendered card lets through: a button takes a click when it is
    rendered and not [disabled={loading}]; a dialog offers its two buttons
    while [isOpen]; a call settles only if it was made. *)
Definition offered (p : Props) (s : State) (ev : Event) : bool :=
  match ev with
  | WifiClick => wifiButton p && negb (loading s)
  | DisconnectClick => disconnectButton p && negb (loading s)
  | ConfirmWifi | CancelWifi => showWifiConfirm s
  | ConfirmDisconnect | CancelDisconnect => showDisconnectConfirm s
  | Settled => negb (bool_decide (awaiting s = 0%nat))
  end.

Definition handle (p : Props) (ev : Event) (s : State) : State :=
  if offered p s ev then
    match ev with
    | WifiClick => handleWifiClick p s
    | DisconnectClick => handleDisconnectClick p s
    | ConfirmWifi => handleConfirmWifi p s
    | CancelWifi => cancelWifi s
    | ConfirmDisconnect => handleConfirmDisconnect p s
    | CancelDisconnect => cancelDisconnect s
    | Settled => settled s
    end
  else s.

(** The events of a run of the card, its props staying the same. *)
Definition run (p : Props) (evs : list Event) (s : State) : State :=
  fold_left (λ s ev, handle p ev s) evs s.

(** At most one call is awaited, [loading] tells whether one is, and a
    dialog is open only for a rendered button and only while not loading. *)
Definition consistent (p : Props) (s : State) : Prop :=
  (awaiting s ≤ 1)%nat
  ∧ loading s = bool_decide (awaiting s = 1%nat)
  ∧ (showWifiConfirm s = true → wifiButton p = true ∧ loading s = false)
  ∧ (showDisconnectConfirm s = true →
     disconnectButton p = true ∧ loading s = false).

End DeviceCard.

(** * Overlapping sends, batched *)

Module Batched.

(** The run [Scenario.crossedRun] as React sees it: the resumed
    [handleSend] runs in the batch of the [handleInit] it awaited, and each
    step event is applied before the next call. *)
Definition crossed : list (list Event) :=
  [[HandleInit "D2" None;
    HandleSend (render Scenario.onD2) Scenario.send1];
   [OnStep "D2" (agentMessageId Scenario.send1) Scenario.stepA];
   [HandleInit "D1" None;
    HandleSend (render Scenario.listed) Scenario.send2];
   [OnStep "D2" (agentMessageId Scenario.send1) Scenario.stepB]].

(** The same calls, the two steps of D2 and the resumed [handleSend] of D1
    all coming before React applies the queue. *)
Definition unflushed : list (list Event) :=
  [[HandleInit "D2" None;
    HandleSend (render Scenario.onD2) Scenario.send1];
   [OnStep "D2" (agentMessageId Scenario.send1) Scenario.stepA;
    OnStep "D2" (agentMessageId Scenario.send1) Scenario.stepB;
    HandleInit "D1" None;
    HandleSend (render Scenario.listed) Scenario.send2]].

End Batched.

(** * More scenarios *)

Module Tour.

(** A successful screenshot response, taller than wide. *)
Definition shot : ScreenshotResponse.t :=
  {| ScreenshotResponse.success := true;
     ScreenshotResponse.image := Some "iVBORw0KGgo=";
     ScreenshotResponse.width := Some 1080;
     ScreenshotResponse.height := Some 2400;
     ScreenshotResponse.is_sensitive := Some false;
     ScreenshotResponse.error := None |}.

(** The polling loop made its first request for D1. *)
Definition polling : World := run [FetchScreenshot "D1"] initialWorld.

(** The request was answered. *)
Definition polled : World :=
  run [FetchScreenshot "D1"; ScreenshotResolved "D1" shot] initialWorld.

(** The user switches away from the streaming D1 and back again. *)
Definition awayAndBack : list Event :=
  [HandleDeviceChange (render Scenario.streaming) "D2";
   HandleDeviceChange (render Scenario.switched) "D1"].

End Tour.

(** * Properties *)

(** ** The helpers on concrete values *)

Example toString_now : toString (1700000000000 + 1) = "1700000000001".
Proof. reflexivity. Qed.

Example trim_both_ends : trim "  open camera " = "open camera".
Proof. reflexivity. Qed.

Example trim_blank : trim "   " = "".
Proof. reflexivity. Qed.

Example trim_unicode_white_space :
  trim "　 open camera 　" = "open camera"
  ∧ trim "　" = ""
  ∧ trim "相机" = "相机".
Proof. repeat split; reflexivity. Qed.

Example errorContent_text : errorContent "timeout" = "错误: timeout".
Proof. reflexivity. Qed.

Example spread_later_member_wins :
  DeviceState.loading
    (spread defaultDeviceState
            (Partial.lit [Partial.Loading true; Partial.Error None;
                          Partial.Loading false]))
  = false.
Proof. reflexivity. Qed.

Example spread_absent_member_kept :
  DeviceState.displayMode
    (spread (spread defaultDeviceState (Partial.DisplayMode screenshot))
            (Partial.lit [Partial.Messages []; Partial.Loading true]))
  = screenshot.
Proof. reflexivity. Qed.

Example default_shows_video :
  showsVideo defaultDeviceState = true
  ∧ shouldPollScreenshots defaultDeviceState = false.
Proof. done. Qed.

(** ** The store: reads of one update *)

Section store_frame.
Implicit Types (s prev : Store) (d deviceId : string) (p : Partial.t).

Lemma updateDeviceState_updater_eq deviceId p prev :
  updateDeviceState_updater deviceId p prev !! deviceId
  = Some (spread (getDeviceState prev deviceId) p).
Proof. unfold updateDeviceState_updater. by rewrite lookup_insert_eq. Qed.

Lemma updateDeviceState_updater_ne deviceId d p prev :
  deviceId ≠ d →
  updateDeviceState_updater deviceId p prev !! d = prev !! d.
Proof. intros Hne. unfold updateDeviceState_updater. by rewrite lookup_insert_ne. Qed.

Lemma onStep_updater_ne deviceId d a ts acts step prev :
  deviceId ≠ d →
  onStep_updater deviceId a ts acts step prev !! d = prev !! d.
Proof.
  intros Hne. unfold onStep_updater.
  destruct (prev !! deviceId); [by rewrite lookup_insert_ne | done].
Qed.

Lemma onDone_updater_ne deviceId d a event prev :
  deviceId ≠ d →
  onDone_updater deviceId a event prev !! d = prev !! d.
Proof.
  intros Hne. unfold onDone_updater.
  destruct (prev !! deviceId); [by rewrite lookup_insert_ne | done].
Qed.

Lemma onError_updater_ne deviceId d a event prev :
  deviceId ≠ d →
  onError_updater deviceId a event prev !! d = prev !! d.
Proof.
  intros Hne. unfold onError_updater.
  destruct (prev !! deviceId); [by rewrite lookup_insert_ne | done].
Qed.

End store_frame.

(** ** Runs: induction over the events *)

Lemma run_cons ev evs w : run (ev :: evs) w = run evs (handle ev w).
Proof. done. Qed.

Lemma run_app evs1 evs2 w : run (evs1 ++ evs2) w = run evs2 (run evs1 w).
Proof. unfold run. by rewrite fold_left_app. Qed.

Lemma run_invariant (P : World → Prop) :
  (∀ ev w, P w → P (handle ev w)) →
  ∀ evs w, P w → P (run evs w).
Proof.
  intros Hstep evs. induction evs as [|ev evs IH]; intros w Hw; [done|].
  rewrite run_cons. apply IH, Hstep, Hw.
Qed.

Lemma reachable_initial : reachable initialWorld.
Proof. by exists []. Qed.

Lemma reachable_handle ev w : reachable w → reachable (handle ev w).
Proof.
  intros [evs ->]. exists (evs ++ [ev]). by rewrite run_app.
Qed.

Lemma reachable_invariant (P : World → Prop) :
  P initialWorld →
  (∀ ev w, P w → P (handle ev w)) →
  ∀ w, reachable w → P w.
Proof. intros H0 Hstep w [evs ->]. by apply run_invariant. Qed.

(** ** The two video flags along a run *)

Lemma flags_step_trans b o1 o2 o3 :
  flags_step b o1 o2 → flags_step b o2 o3 → flags_step b o1 o3.
Proof.
  intros H12 H23. destruct H23 as [|st3 H3|st3 Hb H3].
  - done.
  - destruct H12 as [|st2 H2|st2 Hb H2]; simpl in H3.
    + by apply flags_kept.
    + apply flags_kept. by rewrite H3.
    + apply flags_fallback; [done|]. by rewrite H3.
  - by apply flags_fallback.
Qed.

Lemma spread_flags_absent st p :
  flags_absent p → videoFlags (spread st p) = videoFlags st.
Proof. intros [Hu Hf]. unfold videoFlags, spread. simpl. by rewrite Hu, Hf. Qed.

Lemma updater_flags_absent b deviceId p prev d :
  flags_absent p →
  flags_step b (prev !! d) (updateDeviceState_updater deviceId p prev !! d).
Proof.
  intros Hp. destruct (decide (deviceId = d)) as [->|Hne].
  - rewrite updateDeviceState_updater_eq. apply flags_kept.
    by rewrite spread_flags_absent.
  - rewrite updateDeviceState_updater_ne by done. apply flags_same.
Qed.

Lemma updater_flags_fallback deviceId prev d :
  flags_step true (prev !! d)
    (updateDeviceState_updater deviceId
       (Partial.lit [Partial.VideoStreamFailed true;
                     Partial.UseVideoStream false]) prev !! d).
Proof.
  destruct (decide (deviceId = d)) as [->|Hne].
  - rewrite updateDeviceState_updater_eq. by apply flags_fallback.
  - rewrite updateDeviceState_updater_ne by done. apply flags_same.
Qed.

Lemma onStep_updater_flags b deviceId a ts acts step prev d :
  flags_step b (prev !! d)
    (onStep_updater deviceId a ts acts step prev !! d).
Proof.
  unfold onStep_updater. destruct (prev !! deviceId) as [state|] eqn:Hst;
    [|apply flags_same].
  destruct (decide (deviceId = d)) as [->|Hne].
  - rewrite lookup_insert_eq, Hst. by apply flags_kept.
  - rewrite lookup_insert_ne by done. apply flags_same.
Qed.

Lemma onDone_updater_flags b deviceId a event prev d :
  flags_step b (prev !! d) (onDone_updater deviceId a event prev !! d).
Proof.
  unfold onDone_updater. destruct (prev !! deviceId) as [state|] eqn:Hst;
    [|apply flags_same].
  destruct (decide (deviceId = d)) as [->|Hne].
  - rewrite lookup_insert_eq, Hst. by apply flags_kept.
  - rewrite lookup_insert_ne by done. apply flags_same.
Qed.

Lemma onError_updater_flags b deviceId a event prev d :
  flags_step b (prev !! d) (onError_updater deviceId a event prev !! d).
Proof.
  unfold onError_updater. destruct (prev !! deviceId) as [state|] eqn:Hst;
    [|apply flags_same].
  destruct (decide (deviceId = d)) as [->|Hne].
  - rewrite lookup_insert_eq, Hst. by apply flags_kept.
  - rewrite lookup_insert_ne by done. apply flags_same.
Qed.

(** Chains the steps of a handler that updates the store several times with
    literals that name neither flag. *)
Ltac flags_chain :=
  simpl;
  repeat first
    [ apply updater_flags_absent; by split
    | eapply flags_step_trans; [| apply updater_flags_absent; by split ] ];
  try exact (flags_same _ _).

(** Every event obeys [flags_step] at every device, and only the fallback
    signal may write the flags of the fallback. *)
Lemma handle_flags_step ev w d :
  flags_step (isFallback ev) (deviceStates w !! d)
             (deviceStates (handle ev w) !! d).
Proof.
  destruct ev; simpl.
  - unfold loadDevices. destruct ids; [apply flags_same|].
    case_decide; apply flags_same.
  - apply flags_same.
  - unfold fetchScreenshot.
    destruct (screenshotFetchingRef w); apply flags_same.
  - unfold fetchScreenshot_resolved.
    destruct (answer _ _); [|apply flags_same].
    destruct (ScreenshotResponse.success data); flags_chain.
  - unfold fetchScreenshot_rejected.
    destruct (answer _ _); apply flags_same.
  - unfold handleInit. destruct failure; flags_chain.
  - unfold handleSend. destruct (handleSend_proceeds r); flags_chain.
  - apply onStep_updater_flags.
  - apply onDone_updater_flags.
  - apply onError_updater_flags.
  - unfold handleReset. case_decide; [apply flags_same|].
    destruct (DeviceState.currentStream _); flags_chain.
  - unfold handleDeviceChange.
    destruct (DeviceState.currentStream _); flags_chain.
  - unfold setDisplayMode. flags_chain.
  - apply updater_flags_fallback.
  - unfold onTapSuccess. flags_chain.
  - unfold onTapError. flags_chain.
  - unfold onSwipeSuccess. flags_chain.
  - unfold onSwipeError. flags_chain.
  - unfold clearTapFeedback. flags_chain.
Qed.

(** ** Isolation between devices *)

(** C4. For device ids [A ≠ B], [updateDeviceState] on [A] and each of the
    stream callbacks bound to [A] leave the entry of [B] in the new store
    exactly as it was in the store they were applied to. *)
Theorem update_isolation (A B : string) (w : World) :
  A ≠ B →
  (∀ updates,
     deviceStates (updateDeviceState A updates w) !! B = deviceStates w !! B)
  ∧ (∀ a event,
       deviceStates (onStep A a event w) !! B = deviceStates w !! B)
  ∧ (∀ a event,
       deviceStates (onDone A a event w) !! B = deviceStates w !! B)
  ∧ (∀ a event,
       deviceStates (onError A a event w) !! B = deviceStates w !! B).
Proof.
  intros Hne. repeat split; intros; simpl.
  - by apply updateDeviceState_updater_ne.
  - by apply onStep_updater_ne.
  - by apply onDone_updater_ne.
  - by apply onError_updater_ne.
Qed.

(** ** Callbacks for a device without a record *)

(** C10. When the store has no record for the device of the send, each of
    [onStep], [onDone] and [onError] returns the store it was given. *)
Theorem callbacks_without_record (deviceId a : string) (w : World) :
  deviceStates w !! deviceId = None →
  (∀ event, deviceStates (onStep deviceId a event w) = deviceStates w)
  ∧ (∀ event, deviceStates (onDone deviceId a event w) = deviceStates w)
  ∧ (∀ event, deviceStates (onError deviceId a event w) = deviceStates w).
Proof.
  intros Hnone. repeat split; intros; simpl.
  - unfold onStep_updater. by rewrite Hnone.
  - unfold onDone_updater. by rewrite Hnone.
  - unfold onError_updater. by rewrite Hnone.
Qed.

(** ** Display mode *)

Lemma flags_step_agree b o o' :
  flags_step b o o' →
  (∀ st, o = Some st → flags_agree st) →
  ∀ st', o' = Some st' → flags_agree st'.
Proof.
  intros Hstep Ho st' Hst'. destruct Hstep as [|st2 H2|st2 _ H2].
  - by apply Ho.
  - injection Hst' as <-. unfold flags_agree, videoFlags in *.
    injection H2 as -> ->. destruct o as [st|]; simpl; [by apply Ho | done].
  - injection Hst' as <-. unfold flags_agree, videoFlags in *.
    by injection H2 as -> ->.
Qed.

Lemma flags_step_latched b o o' :
  flags_step b o o' →
  (∃ st, o = Some st ∧ DeviceState.videoStreamFailed st = true) →
  ∃ st', o' = Some st' ∧ DeviceState.videoStreamFailed st' = true.
Proof.
  intros Hstep (st & -> & Hst). destruct Hstep as [|st2 H2|st2 _ H2].
  - by exists st.
  - exists st2. split; [done|]. unfold videoFlags in H2. simpl in H2.
    injection H2 as _ ->. done.
  - exists st2. split; [done|]. unfold videoFlags in H2.
    by injection H2 as _ ->.
Qed.

Lemma reachable_flags_agree w :
  reachable w → ∀ d st, deviceStates w !! d = Some st → flags_agree st.
Proof.
  revert w.
  apply (reachable_invariant
           (λ w, ∀ d st, deviceStates w !! d = Some st → flags_agree st)).
  - intros d st. simpl. by rewrite lookup_empty.
  - intros ev w IH d st. apply (flags_step_agree (isFallback ev) (deviceStates w !! d)).
    + apply handle_flags_step.
    + apply IH.
Qed.

Lemma getDeviceState_flags_agree w d :
  reachable w → flags_agree (getDeviceState (deviceStates w) d).
Proof.
  intros Hw. unfold getDeviceState.
  destruct (deviceStates w !! d) as [st|] eqn:Hst; simpl; [|done].
  by eapply reachable_flags_agree.
Qed.

Lemma run_latched evs w d : failed_latched d w → failed_latched d (run evs w).
Proof.
  apply run_invariant. intros ev w' Hw'.
  apply (flags_step_latched (isFallback ev) (deviceStates w' !! d)); [|done].
  apply handle_flags_step.
Qed.

Lemma onFallback_latched w d : failed_latched d (onFallback d w).
Proof.
  unfold failed_latched, onFallback. simpl.
  rewrite updateDeviceState_updater_eq. by eexists.
Qed.

Lemma setDisplayMode_latched w d mode :
  failed_latched d w →
  ∃ st, deviceStates (setDisplayMode d mode w) !! d = Some st
        ∧ DeviceState.videoStreamFailed st = true
        ∧ DeviceState.displayMode st = mode.
Proof.
  intros (st & Hst & Hf). unfold setDisplayMode. simpl.
  rewrite updateDeviceState_updater_eq. eexists. split; [done|].
  unfold getDeviceState. rewrite Hst. simpl. done.
Qed.

(** C6. After the fallback signal for a device, and whatever events follow
    it, the device has a record with [videoStreamFailed] set, so that the
    effective mode in [auto] is [screenshot]: the player is shown only under
    the explicit [video] preference and screenshots are polled otherwise;
    and setting [displayMode] to any mode and then back to [auto] leaves the
    flag set, the player hidden and the polling on. *)
Theorem videoStreamFailed_sticky (w0 : World) (d : string)
    (evs : list Event) :
  let w := run evs (onFallback d w0) in
  (∃ st, deviceStates w !! d = Some st
         ∧ DeviceState.videoStreamFailed st = true
         ∧ effectiveMode auto (DeviceState.videoStreamFailed st) = screenshot
         ∧ showsVideo st = bool_decide (DeviceState.displayMode st = video)
         ∧ shouldPollScreenshots st
           = negb (bool_decide (DeviceState.displayMode st = video)))
  ∧ (∀ mode,
       ∃ st, deviceStates (setDisplayMode d auto (setDisplayMode d mode w))
               !! d = Some st
             ∧ DeviceState.videoStreamFailed st = true
             ∧ DeviceState.displayMode st = auto
             ∧ showsVideo st = false
             ∧ shouldPollScreenshots st = true).
Proof.
  intros w.
  assert (Hw : failed_latched d w) by apply run_latched, onFallback_latched.
  split.
  - destruct Hw as (st & Hst & Hf). exists st.
    unfold showsVideo, shouldPollScreenshots. rewrite Hf.
    repeat split; try done.
    + by destruct (DeviceState.displayMode st),
                  (DeviceState.useVideoStream st).
    + by destruct (DeviceState.displayMode st).
  - intros mode.
    destruct (setDisplayMode_latched w d mode Hw) as (st1 & Hst1 & Hf1 & _).
    destruct (setDisplayMode_latched _ d auto
                (ex_intro _ st1 (conj Hst1 Hf1))) as (st & Hst & Hf & Hm).
    exists st. unfold showsVideo, shouldPollScreenshots. rewrite Hm, Hf.
    repeat split; try done.
    by destruct (DeviceState.useVideoStream st).
Qed.

(** C7. In every reachable state of the component and for every device, the
    condition under which the player is rendered is that the effective mode
    derived from [displayMode] and [videoStreamFailed] is [video], and the
    condition under which screenshots are polled is that it is
    [screenshot]; the derivation gives [video] for [video], [screenshot] for
    [screenshot], and for [auto] gives [video] unless [videoStreamFailed].
    For the selected device, the player is rendered and the polling effect
    runs under these conditions and a non-empty device id. *)
Theorem display_conditions_follow_effectiveMode (w : World) (d : string) :
  reachable w →
  let st := getDeviceState (deviceStates w) d in
  let effective :=
    effectiveMode (DeviceState.displayMode st)
                  (DeviceState.videoStreamFailed st) in
  showsVideo st = bool_decide (effective = video)
  ∧ shouldPollScreenshots st = bool_decide (effective = screenshot)
  ∧ (DeviceState.displayMode st = video → effective = video)
  ∧ (DeviceState.displayMode st = screenshot → effective = screenshot)
  ∧ (DeviceState.displayMode st = auto →
     effective = if DeviceState.videoStreamFailed st then screenshot
                 else video)
  ∧ (currentDeviceId w = d →
     playerRendered (render w)
     = negb (bool_decide (d = "")) && bool_decide (effective = video)
     ∧ pollingActive (render w)
       = negb (bool_decide (d = ""))
         && bool_decide (effective = screenshot)).
Proof.
  intros Hw st effective.
  pose proof (getDeviceState_flags_agree w d Hw) as Hagree.
  fold st in Hagree. unfold flags_agree in Hagree.
  assert (showsVideo st = bool_decide (effective = video)
          ∧ shouldPollScreenshots st = bool_decide (effective = screenshot))
    as [Hvideo Hpoll].
  { subst effective. unfold showsVideo, shouldPollScreenshots.
    rewrite Hagree.
    by destruct (DeviceState.displayMode st),
                (DeviceState.videoStreamFailed st). }
  split; [done|]. split; [done|].
  split; [unfold effective; by intros ->|].
  split; [unfold effective; by intros ->|].
  split; [unfold effective; by intros ->|].
  intros Hcur. unfold playerRendered, pollingActive, render. simpl.
  unfold getCurrentDeviceState. rewrite Hcur. fold st.
  by rewrite Hvideo, Hpoll.
Qed.

(** C9. In every reachable state every device record has
    [useVideoStream = !videoStreamFailed]: the default record has the flags
    [true] and [false]; every event leaves the flags of the records as they
    were, except the fallback signal, which writes [false] and [true]
    together; and so the render condition of the player is the one without
    its [useVideoStream] conjunct. *)
Theorem useVideoStream_mirrors_failed (w : World) :
  reachable w →
  videoFlags defaultDeviceState = (true, false)
  ∧ (∀ ev d,
       flags_step (isFallback ev) (deviceStates w !! d)
                  (deviceStates (handle ev w) !! d))
  ∧ (∀ d st,
       deviceStates w !! d = Some st →
       DeviceState.useVideoStream st
       = negb (DeviceState.videoStreamFailed st))
  ∧ (∀ d,
       let st := getDeviceState (deviceStates w) d in
       showsVideo st
       = bool_decide (DeviceState.displayMode st = video)
         || (bool_decide (DeviceState.displayMode st = auto)
             && negb (DeviceState.videoStreamFailed st))).
Proof.
  intros Hw. split; [done|]. split; [intros; apply handle_flags_step|].
  split.
  - intros d st Hst. by apply (reachable_flags_agree w Hw d).
  - intros d st. unfold showsVideo.
    pose proof (getDeviceState_flags_agree w d Hw) as Hagree.
    fold st in Hagree. rewrite Hagree.
    by destruct (DeviceState.videoStreamFailed st),
                (bool_decide (DeviceState.displayMode st = auto)).
Qed.

(** ** Screenshot polling *)

Lemma answer_length deviceId pending rest :
  answer deviceId pending = Some rest → length pending = S (length rest).
Proof.
  revert rest. induction pending as [|d pending IH]; intros rest; simpl.
  - done.
  - case_decide.
    + by intros [= ->].
    + destruct (answer deviceId pending) as [rest'|]; simpl; [|done].
      intros [= <-]. simpl. f_equal. by apply IH.
Qed.

Lemma answer_elem_of deviceId pending :
  deviceId ∈ pending → is_Some (answer deviceId pending).
Proof.
  induction 1 as [d pending|d' d pending Hin IH]; simpl.
  - rewrite decide_True by done. by eexists.
  - case_decide; [by eexists|]. destruct IH as [rest ->]. by eexists.
Qed.

(** Only the three parts of [fetchScreenshot] touch the guard and the
    pending requests. *)
Lemma handle_polling_guarded ev w :
  polling_guarded w → polling_guarded (handle ev w).
Proof.
  unfold polling_guarded. intros [Hlen Href].
  destruct ev; simpl; try done.
  - unfold loadDevices. destruct ids; [done|]. by case_decide.
  - unfold fetchScreenshot.
    destruct (screenshotFetchingRef w) eqn:Hg; [split; [done | congruence]|].
    assert (pendingScreenshots w = []) as Hnone.
    { destruct (pendingScreenshots w) as [|d' rest]; [done|].
      rewrite bool_decide_eq_false_2 in Href by done. simpl in Href.
      congruence. }
    simpl. by rewrite Hnone.
  - unfold fetchScreenshot_resolved.
    destruct (answer _ _) as [rest|] eqn:Hans; [|done].
    apply answer_length in Hans. simpl.
    destruct rest; [split; [simpl; lia | done] | simpl in *; lia].
  - unfold fetchScreenshot_rejected.
    destruct (answer _ _) as [rest|] eqn:Hans; [|done].
    apply answer_length in Hans. simpl.
    destruct rest; [split; [simpl; lia | done] | simpl in *; lia].
  - unfold handleInit. by destruct failure.
  - unfold handleSend. by destruct (handleSend_proceeds r).
  - unfold handleReset. case_decide; [done|].
    by destruct (DeviceState.currentStream _).
  - unfold handleDeviceChange. by destruct (DeviceState.currentStream _).
Qed.

Lemma reachable_polling_guarded w : reachable w → polling_guarded w.
Proof.
  revert w. apply (reachable_invariant polling_guarded).
  - split; [simpl; lia | done].
  - apply handle_polling_guarded.
Qed.

(** C8. In every reachable state at most one screenshot request is in
    flight.  A tick that finds a request pending changes nothing and issues
    none, a tick that finds none issues exactly one.  A response with
    [success] is stored as the device's screenshot; a response without it,
    and a rejected request, leave the store as it was. *)
Theorem screenshot_polling_single_flight (w : World) :
  reachable w →
  (length (pendingScreenshots w) ≤ 1)%nat
  ∧ (∀ d, pendingScreenshots w ≠ [] → fetchScreenshot d w = w)
  ∧ (∀ d, pendingScreenshots w = [] →
          pendingScreenshots (fetchScreenshot d w) = [d]
          ∧ deviceStates (fetchScreenshot d w) = deviceStates w)
  ∧ (∀ d data,
       d ∈ pendingScreenshots w →
       ScreenshotResponse.success data = true →
       let w' := fetchScreenshot_resolved d data w in
       deviceStates w' !! d
       = Some (spread (getDeviceState (deviceStates w) d)
                      (Partial.Screenshot (Some data)))
       ∧ DeviceState.screenshot (getDeviceState (deviceStates w') d)
         = Some data
       ∧ pendingScreenshots w' = [])
  ∧ (∀ d data,
       ScreenshotResponse.success data = false →
       deviceStates (fetchScreenshot_resolved d data w) = deviceStates w)
  ∧ (∀ d, deviceStates (fetchScreenshot_rejected d w) = deviceStates w).
Proof.
  intros Hw. destruct (reachable_polling_guarded w Hw) as [Hlen Href].
  split; [done|]. split; [|split; [|split; [|split]]].
  - intros d Hpending. unfold fetchScreenshot. rewrite Href.
    by rewrite bool_decide_eq_false_2.
  - intros d Hpending. unfold fetchScreenshot. rewrite Href, Hpending. done.
  - intros d data Hin Hok w'. subst w'. unfold fetchScreenshot_resolved.
    destruct (answer_elem_of d _ Hin) as [rest Hrest]. rewrite Hrest, Hok.
    pose proof (answer_length _ _ _ Hrest) as Hl.
    assert (rest = []) as -> by (destruct rest; [done | simpl in Hl; lia]).
    simpl. unfold getDeviceState.
    rewrite updateDeviceState_updater_eq. done.
  - intros d data Hfail. unfold fetchScreenshot_resolved.
    destruct (answer _ _); [|done]. by rewrite Hfail.
  - intros d. unfold fetchScreenshot_rejected. by destruct (answer _ _).
Qed.

(** ** The stream callbacks on the placeholder *)

Lemma mapPlaceholder_lookup a f (ms : list Message.t) i :
  mapPlaceholder a f ms !! i
  = (λ msg, if decide (Message.id msg = a) then f msg else msg) <$> ms !! i.
Proof. unfold mapPlaceholder. by rewrite list_lookup_fmap. Qed.

Lemma mapPlaceholder_length a f (ms : list Message.t) :
  length (mapPlaceholder a f ms) = length ms.
Proof. unfold mapPlaceholder. by rewrite length_fmap. Qed.

(** C5. For a device that has a record: after [onDone] the device has
    [loading = false] and no stream handle, and every message with the
    placeholder id has [isStreaming = false] and the content and success of
    the event, the other messages being as before; after [onError] the same
    holds with the formatted error text as content and [success = false],
    and the device's [error] is the event's message.  [onStep] makes no test
    of these fields: a step event handled afterwards leaves the content,
    success and [isStreaming] of every message and the device's loading,
    error and stream handle as they were. *)
Theorem terminal_events_settle_placeholder (w : World) (d a : string)
    (st : DeviceState.t) :
  deviceStates w !! d = Some st →
  (∀ event,
     ∃ st', deviceStates (onDone d a event w) !! d = Some st'
       ∧ DeviceState.loading st' = false
       ∧ DeviceState.currentStream st' = None
       ∧ DeviceState.error st' = DeviceState.error st
       ∧ length (DeviceState.messages st') = length (DeviceState.messages st)
       ∧ ∀ i msg, DeviceState.messages st !! i = Some msg →
           ∃ msg', DeviceState.messages st' !! i = Some msg'
             ∧ if decide (Message.id msg = a)
               then Message.id msg' = a
                    ∧ Message.isStreaming msg' = Some false
                    ∧ Message.content msg' = DoneEvent.message event
                    ∧ Message.success msg' = Some (DoneEvent.success event)
               else msg' = msg)
  ∧ (∀ event,
       ∃ st', deviceStates (onError d a event w) !! d = Some st'
         ∧ DeviceState.loading st' = false
         ∧ DeviceState.currentStream st' = None
         ∧ DeviceState.error st' = Some (ErrorEvent.message event)
         ∧ length (DeviceState.messages st')
           = length (DeviceState.messages st)
         ∧ ∀ i msg, DeviceState.messages st !! i = Some msg →
             ∃ msg', DeviceState.messages st' !! i = Some msg'
               ∧ if decide (Message.id msg = a)
                 then Message.id msg' = a
                      ∧ Message.isStreaming msg' = Some false
                      ∧ Message.content msg'
                        = errorContent (ErrorEvent.message event)
                      ∧ Message.success msg' = Some false
                 else msg' = msg)
  ∧ (∀ event,
       ∃ st', deviceStates (onStep d a event w) !! d = Some st'
         ∧ DeviceState.loading st' = DeviceState.loading st
         ∧ DeviceState.currentStream st' = DeviceState.currentStream st
         ∧ DeviceState.error st' = DeviceState.error st
         ∧ ∀ i msg, DeviceState.messages st !! i = Some msg →
             ∃ msg', DeviceState.messages st' !! i = Some msg'
               ∧ Message.id msg' = Message.id msg
               ∧ Message.isStreaming msg' = Message.isStreaming msg
               ∧ Message.content msg' = Message.content msg
               ∧ Message.success msg' = Message.success msg).
Proof.
  intros Hst. split; [|split]; intros event; simpl.
  - unfold onDone_updater. rewrite Hst, lookup_insert_eq.
    eexists. split; [done|]. simpl.
    repeat split; try done; [apply mapPlaceholder_length|].
    intros i msg Hmsg. rewrite mapPlaceholder_lookup, Hmsg. simpl.
    eexists. split; [done|]. by case_decide.
  - unfold onError_updater. rewrite Hst, lookup_insert_eq.
    eexists. split; [done|]. simpl.
    repeat split; try done; [apply mapPlaceholder_length|].
    intros i msg Hmsg. rewrite mapPlaceholder_lookup, Hmsg. simpl.
    eexists. split; [done|]. by case_decide.
  - unfold onStep_updater. rewrite Hst, lookup_insert_eq.
    eexists. split; [done|]. simpl.
    repeat split; try done.
    intros i msg Hmsg. rewrite mapPlaceholder_lookup, Hmsg. simpl.
    eexists. split; [done|]. by case_decide.
Qed.

(** ** Accumulation of the steps of one send *)

Lemma elsewhere_frame d ev w :
  elsewhere d ev = true →
  deviceStates (handle ev w) !! d = deviceStates w !! d
  ∧ currentThinkingRef (handle ev w) = currentThinkingRef w
  ∧ currentActionsRef (handle ev w) = currentActionsRef w.
Proof.
  destruct ev; simpl; try done; intros Hne;
    try apply bool_decide_eq_true_1 in Hne.
  - unfold loadDevices. destruct ids; [done|]. by case_decide.
  - unfold fetchScreenshot. by destruct (screenshotFetchingRef w).
  - unfold fetchScreenshot_resolved. destruct (answer _ _); [|done].
    destruct (ScreenshotResponse.success data); simpl; [|done].
    by rewrite updateDeviceState_updater_ne.
  - unfold fetchScreenshot_rejected. by destruct (answer _ _).
  - unfold handleInit. destruct failure; simpl;
      by rewrite updateDeviceState_updater_ne.
  - by rewrite onDone_updater_ne.
  - by rewrite onError_updater_ne.
  - unfold handleReset. case_decide; [done|].
    destruct (DeviceState.currentStream _); simpl;
      by rewrite updateDeviceState_updater_ne.
  - unfold handleDeviceChange.
    destruct (DeviceState.currentStream _); simpl; [|done].
    by rewrite updateDeviceState_updater_ne.
  - by rewrite updateDeviceState_updater_ne.
  - by rewrite updateDeviceState_updater_ne.
  - by rewrite updateDeviceState_updater_ne.
  - by rewrite updateDeviceState_updater_ne.
  - by rewrite updateDeviceState_updater_ne.
  - by rewrite updateDeviceState_updater_ne.
  - by rewrite updateDeviceState_updater_ne.
Qed.

Lemma mapPlaceholder_withStep_twice a ts acts step ts' acts' step' ms :
  mapPlaceholder a (withStep ts acts step)
    (mapPlaceholder a (withStep ts' acts' step') ms)
  = mapPlaceholder a (withStep ts acts step) ms.
Proof.
  unfold mapPlaceholder. rewrite <- list_fmap_compose.
  apply list_fmap_ext. intros i msg _. simpl.
  destruct (decide (Message.id msg = a)) as [Hid|Hid]; simpl.
  - by rewrite decide_True.
  - by rewrite decide_False.
Qed.

Lemma mapPlaceholder_folded a ts acts step steps sent :
  mapPlaceholder a (withStep ts acts step) (folded a steps sent)
  = mapPlaceholder a (withStep ts acts step) sent.
Proof.
  unfold folded. destruct (last steps); [|done].
  apply mapPlaceholder_withStep_twice.
Qed.

Lemma folded_placeholder a steps earlier placeholder :
  Message.id placeholder = a →
  Message.thinking placeholder = Some [] →
  Message.actions placeholder = Some [] →
  Message.steps placeholder = None →
  ∃ before msg,
    folded a steps (earlier ++ [placeholder]) = before ++ [msg]
    ∧ length before = length earlier
    ∧ Message.id msg = a
    ∧ Message.thinking msg = Some (StepEvent.thinking <$> steps)
    ∧ Message.actions msg = Some (StepEvent.action <$> steps)
    ∧ Message.steps msg = last (StepEvent.step <$> steps)
    ∧ Message.isStreaming msg = Message.isStreaming placeholder
    ∧ ∀ i other, earlier !! i = Some other → Message.id other ≠ a →
                 before !! i = Some other.
Proof.
  intros Hid Hts Hacts Hsteps. unfold folded.
  destruct (last steps) as [event|] eqn:Hlast.
  - exists (mapPlaceholder a
              (withStep (StepEvent.thinking <$> steps)
                        (StepEvent.action <$> steps)
                        (StepEvent.step event)) earlier).
    eexists. split.
    { unfold mapPlaceholder. rewrite fmap_app. simpl.
      by rewrite decide_True. }
    rewrite mapPlaceholder_length, fmap_last, Hlast. simpl.
    repeat split; try done.
    intros i other Hother Hne. rewrite mapPlaceholder_lookup, Hother. simpl.
    by rewrite decide_False.
  - apply last_None in Hlast as ->. exists earlier, placeholder.
    by repeat split.
Qed.

(** ** Events on a closed stream *)

Lemma cleared_onStep_updater d a ts acts step (s : Store) st :
  s !! d = Some st → cleared st → onStep_updater d a ts acts step s = s.
Proof.
  intros Hst (Hms & _). unfold onStep_updater. rewrite Hst.
  apply insert_id. rewrite Hst. f_equal.
  destruct st. simpl in *. by subst.
Qed.

Lemma cleared_onDone_updater d a event (s : Store) st :
  s !! d = Some st → cleared st → onDone_updater d a event s = s.
Proof.
  intros Hst (Hms & Hl & _ & Hcs). unfold onDone_updater. rewrite Hst.
  apply insert_id. rewrite Hst. f_equal.
  destruct st. simpl in *. by subst.
Qed.

Lemma cleared_late_events d (lates : list Event) :
  Forall (λ ev, stepOrDoneOf d ev = true) lates →
  ∀ w st, deviceStates w !! d = Some st → cleared st →
          deviceStates (run lates w) = deviceStates w.
Proof.
  induction 1 as [|ev lates Hev _ IH]; intros w st Hst Hclr; [done|].
  rewrite run_cons.
  assert (deviceStates (handle ev w) = deviceStates w) as Hsame.
  { destruct ev; try done; simpl in Hev;
      apply bool_decide_eq_true_1 in Hev as ->; simpl.
    - by eapply cleared_onStep_updater.
    - by eapply cleared_onDone_updater. }
  rewrite <- Hsame. apply (IH _ st); [by rewrite Hsame | done].
Qed.

(** C3. [handleReset] (for a selected device) and [handleDeviceChange] call
    [close()] on the handle found in the device state they captured and
    leave the device with no stream handle.  After [handleReset], which also
    empties the messages, any step and done events that still arrive for
    that device leave the whole store as the reset left it. *)
Theorem closed_stream_after_reset (r : Render.t) (w : World)
    (lates : list Event) :
  Render.currentDeviceId r ≠ "" →
  Forall (λ ev, stepOrDoneOf (Render.currentDeviceId r) ev = true) lates →
  let d := Render.currentDeviceId r in
  let w1 := handleReset r w in
  (∀ h, DeviceState.currentStream (Render.currentState r) = Some h →
        h ∈ closedStreams w1)
  ∧ (∃ st, deviceStates w1 !! d = Some st ∧ cleared st)
  ∧ deviceStates (run lates w1) = deviceStates w1
  ∧ (∀ deviceId h,
       DeviceState.currentStream (Render.currentState r) = Some h →
       let w2 := handleDeviceChange r deviceId w in
       h ∈ closedStreams w2
       ∧ ∃ st, deviceStates w2 !! d = Some st
               ∧ DeviceState.currentStream st = None).
Proof.
  intros Hsel Hlates d w1.
  assert (∃ st, deviceStates w1 !! d = Some st ∧ cleared st)
    as (st & Hst & Hclr).
  { subst w1. unfold handleReset. rewrite decide_False by done.
    destruct (DeviceState.currentStream _); simpl;
      rewrite updateDeviceState_updater_eq; by eexists. }
  split; [|split; [by exists st|split]].
  - intros h Hh. subst w1. unfold handleReset.
    rewrite decide_False by done. rewrite Hh. simpl. set_solver.
  - by apply (cleared_late_events d lates Hlates w1 st).
  - intros deviceId h Hh w2. subst w2. unfold handleDeviceChange.
    rewrite Hh. simpl. split; [set_solver|].
    rewrite updateDeviceState_updater_eq. by eexists.
Qed.

(** ** Evaluations of the scenarios *)

Section scenarios.
Import Scenario.

(** C1, at the failing run.  Two runs of [handleSend] that overlap while
    [initAgent] is pending captured the same render.  After the first
    resumed, the
    device holds its user message and placeholder; after the second
    resumed, the device holds only the messages of the second: both
    messages of the first send are gone from the store, although every
    update was applied to the store current at that moment. *)
Theorem overlapping_sends_lose_messages :
  handleSend_proceeds (render typed) = true
  ∧ messagesOf "D1" firstSent
    = [userMessage (render typed) send1; agentMessage send1]
  ∧ messagesOf "D1" doubled
    = [userMessage (render typed) send2; agentMessage send2]
  ∧ Message.id <$> messagesOf "D1" firstSent
    = ["1700000000000"; "1700000000001"]
  ∧ Message.id <$> messagesOf "D1" doubled
    = ["1700000000250"; "1700000000251"]
  ∧ DeviceState.currentStream (getDeviceState (deviceStates doubled) "D1")
    = Some 2%nat
  ∧ closedStreams doubled = [].
Proof. repeat split; vm_compute; reflexivity. Qed.

(** C3, counterexample: the callbacks do not look at the handle.  After the
    switch away from D1 closed its stream and cleared the handle, a step
    event for that send changes the record of D1; after a reset, an error
    event sets the error of D1. *)
Lemma late_event_on_closed_stream :
  closedStreams switched = [1%nat]
  ∧ DeviceState.currentStream (getDeviceState (deviceStates switched) "D1")
    = None
  ∧ thinkingOf "D1" switched = [None; Some []]
  ∧ thinkingOf "D1" lateStep = [None; Some ["find the camera icon"]]
  ∧ deviceStates lateStep !! "D1" ≠ deviceStates switched !! "D1"
  ∧ closedStreams wiped = [1%nat]
  ∧ DeviceState.error (getDeviceState (deviceStates wiped) "D1") = None
  ∧ DeviceState.error (getDeviceState (deviceStates lateError) "D1")
    = Some "connection lost".
Proof.
  repeat split; try (vm_compute; reflexivity).
  intros Heq.
  apply (f_equal (fmap (λ st, Message.thinking <$> DeviceState.messages st)))
    in Heq.
  vm_compute in Heq. discriminate.
Qed.

(** C5, counterexample to its last part: a step event handled after the
    done event still replaces the thinking of the placeholder. *)
Lemma step_after_done_is_applied :
  Message.isStreaming <$> messagesOf "D1" completed = [None; Some false]
  ∧ thinkingOf "D1" completed = [None; Some []]
  ∧ thinkingOf "D1" (onStep "D1" (agentMessageId send1) stepA completed)
    = [None; Some ["find the camera icon"]]
  ∧ messagesOf "D1" (onStep "D1" (agentMessageId send1) stepA completed)
    ≠ messagesOf "D1" completed.
Proof.
  repeat split; try (vm_compute; reflexivity).
  intros Heq. apply (f_equal (fmap Message.thinking)) in Heq.
  vm_compute in Heq. discriminate.
Qed.

(** The theorems above, applied to the scenarios. *)

Lemma update_isolation_witness :
  "D1" ≠ "D2"
  ∧ ∀ updates,
      deviceStates (updateDeviceState "D1" updates streaming) !! "D2"
      = deviceStates streaming !! "D2".
Proof.
  split; [discriminate|].
  exact (proj1 (update_isolation "D1" "D2" streaming ltac:(discriminate))).
Defined.

Lemma callbacks_without_record_witness :
  deviceStates initialWorld !! "D1" = None
  ∧ ∀ event,
      deviceStates (onStep "D1" (agentMessageId send1) event initialWorld)
      = deviceStates initialWorld.
Proof.
  split; [reflexivity|].
  exact (proj1 (callbacks_without_record "D1" (agentMessageId send1)
                  initialWorld eq_refl)).
Defined.

Lemma display_conditions_witness :
  reachable (run [OnFallback "D1"] initialWorld)
  ∧ showsVideo
      (getDeviceState (deviceStates (run [OnFallback "D1"] initialWorld))
                      "D1")
    = bool_decide
        (effectiveMode
           (DeviceState.displayMode
              (getDeviceState
                 (deviceStates (run [OnFallback "D1"] initialWorld)) "D1"))
           (DeviceState.videoStreamFailed
              (getDeviceState
                 (deviceStates (run [OnFallback "D1"] initialWorld)) "D1"))
         = video).
Proof.
  split; [by exists [OnFallback "D1"]|].
  exact (proj1 (display_conditions_follow_effectiveMode
                  (run [OnFallback "D1"] initialWorld) "D1"
                  (ex_intro _ [OnFallback "D1"] eq_refl))).
Defined.

Lemma screenshot_polling_witness :
  reachable (run [FetchScreenshot "D1"] initialWorld)
  ∧ (length (pendingScreenshots (run [FetchScreenshot "D1"] initialWorld))
     ≤ 1)%nat.
Proof.
  split; [by exists [FetchScreenshot "D1"]|].
  exact (proj1 (screenshot_polling_single_flight
                  (run [FetchScreenshot "D1"] initialWorld)
                  (ex_intro _ [FetchScreenshot "D1"] eq_refl))).
Defined.

Lemma useVideoStream_mirrors_failed_witness :
  reachable (run [OnFallback "D1"] initialWorld)
  ∧ ∀ d st,
      deviceStates (run [OnFallback "D1"] initialWorld) !! d = Some st →
      DeviceState.useVideoStream st
      = negb (DeviceState.videoStreamFailed st).
Proof.
  split; [by exists [OnFallback "D1"]|].
  exact (proj1 (proj2 (proj2 (useVideoStream_mirrors_failed
                  (run [OnFallback "D1"] initialWorld)
                  (ex_intro _ [OnFallback "D1"] eq_refl))))).
Defined.

Lemma terminal_events_witness :
  deviceStates streaming !! "D1"
  = Some (getDeviceState (deviceStates streaming) "D1")
  ∧ ∃ st', deviceStates (onDone "D1" (agentMessageId send1) finished
                           streaming) !! "D1" = Some st'
           ∧ DeviceState.loading st' = false
           ∧ DeviceState.currentStream st' = None.
Proof.
  assert (deviceStates streaming !! "D1"
          = Some (getDeviceState (deviceStates streaming) "D1")) as Hst
    by (vm_compute; reflexivity).
  split; [exact Hst|].
  destruct (proj1 (terminal_events_settle_placeholder streaming "D1"
                     (agentMessageId send1) _ Hst) finished)
    as (st' & Hst' & Hl & Hcs & _).
  exists st'. by repeat split.
Defined.

Lemma closed_stream_after_reset_witness :
  Render.currentDeviceId (render streaming) ≠ ""
  ∧ Forall (λ ev, stepOrDoneOf (Render.currentDeviceId (render streaming)) ev
                  = true)
      [OnStep "D1" (agentMessageId send1) stepA;
       OnDone "D1" (agentMessageId send1) finished]
  ∧ deviceStates
      (run [OnStep "D1" (agentMessageId send1) stepA;
            OnDone "D1" (agentMessageId send1) finished]
           (handleReset (render streaming) streaming))
    = deviceStates (handleReset (render streaming) streaming).
Proof.
  assert (Render.currentDeviceId (render streaming) ≠ "") as Hsel
    by (vm_compute; discriminate).
  assert (Forall (λ ev, stepOrDoneOf
                          (Render.currentDeviceId (render streaming)) ev
                        = true)
            [OnStep "D1" (agentMessageId send1) stepA;
             OnDone "D1" (agentMessageId send1) finished]) as Hlates
    by (repeat apply Forall_cons_2; try apply Forall_nil_2;
        vm_compute; reflexivity).
  split; [exact Hsel|]. split; [exact Hlates|].
  exact (proj1 (proj2 (proj2 (closed_stream_after_reset (render streaming)
                                streaming _ Hsel Hlates)))).
Defined.

End scenarios.

(** * Further properties *)

(** ** The store as a map of merged literals *)

Lemma default_from_option {A} (x : A) (p q : option A) :
  default (default x p) q = default x (from_option Some p q).
Proof. by destruct q. Qed.

Lemma spread_and st p q :
  spread (spread st p) q = spread st (Partial.and p q).
Proof.
  destruct p, q. unfold spread, Partial.and. simpl.
  f_equal; apply default_from_option.
Qed.

Lemma and_self p : Partial.and p p = p.
Proof. destruct p as [m l e i c s u f dm t]. unfold Partial.and. simpl.
  by destruct m, l, e, i, c, s, u, f, dm, t. Qed.

Lemma updater_updater d p q (s : Store) :
  updateDeviceState_updater d q (updateDeviceState_updater d p s)
  = updateDeviceState_updater d (Partial.and p q) s.
Proof.
  unfold updateDeviceState_updater. rewrite lookup_insert_eq. simpl.
  by rewrite insert_insert_eq, spread_and.
Qed.

Lemma updater_commute d1 d2 p q (s : Store) :
  d1 ≠ d2 →
  updateDeviceState_updater d1 p (updateDeviceState_updater d2 q s)
  = updateDeviceState_updater d2 q (updateDeviceState_updater d1 p s).
Proof.
  intros Hne. unfold updateDeviceState_updater.
  rewrite !lookup_insert_ne by done. by rewrite insert_insert_ne.
Qed.

(** X1. Two successive [updateDeviceState] calls for one device amount to a
    single call with the two literals combined, a member of the later
    literal winning; hence repeating a call changes nothing more. *)
Theorem updateDeviceState_compose (d : string) (p q : Partial.t)
    (w : World) :
  updateDeviceState d q (updateDeviceState d p w)
  = updateDeviceState d (Partial.and p q) w
  ∧ updateDeviceState d p (updateDeviceState d p w) = updateDeviceState d p w.
Proof.
  unfold updateDeviceState, setDeviceStates. simpl.
  rewrite !updater_updater, and_self. done.
Qed.

(** X2. Calls of [updateDeviceState] for two different devices can be made
    in either order. *)
Theorem updateDeviceState_commute (d1 d2 : string) (p q : Partial.t)
    (w : World) :
  d1 ≠ d2 →
  updateDeviceState d1 p (updateDeviceState d2 q w)
  = updateDeviceState d2 q (updateDeviceState d1 p w).
Proof.
  intros Hne. unfold updateDeviceState, setDeviceStates. simpl.
  by rewrite updater_commute.
Qed.

(** X3. Reading a device after [updateDeviceState] gives, member by member,
    the value of the literal where the literal has the member and otherwise
    the value that was read before the call (the default record's when the
    device had none); the device has a record from then on, even after an
    empty literal. *)
Theorem getDeviceState_after_update (d : string) (p : Partial.t)
    (w : World) :
  let before := getDeviceState (deviceStates w) d in
  let after := getDeviceState (deviceStates (updateDeviceState d p w)) d in
  is_Some (deviceStates (updateDeviceState d p w) !! d)
  ∧ DeviceState.messages after
    = default (DeviceState.messages before) (Partial.messages p)
  ∧ DeviceState.loading after
    = default (DeviceState.loading before) (Partial.loading p)
  ∧ DeviceState.error after
    = default (DeviceState.error before) (Partial.error p)
  ∧ DeviceState.initialized after
    = default (DeviceState.initialized before) (Partial.initialized p)
  ∧ DeviceState.currentStream after
    = default (DeviceState.currentStream before) (Partial.currentStream p)
  ∧ DeviceState.screenshot after
    = default (DeviceState.screenshot before) (Partial.screenshot p)
  ∧ DeviceState.useVideoStream after
    = default (DeviceState.useVideoStream before) (Partial.useVideoStream p)
  ∧ DeviceState.videoStreamFailed after
    = default (DeviceState.videoStreamFailed before)
              (Partial.videoStreamFailed p)
  ∧ DeviceState.displayMode after
    = default (DeviceState.displayMode before) (Partial.displayMode p)
  ∧ DeviceState.tapFeedback after
    = default (DeviceState.tapFeedback before) (Partial.tapFeedback p)
  ∧ (deviceStates w !! d = None →
     getDeviceState (deviceStates (updateDeviceState d Partial.empty w)) d
     = defaultDeviceState
     ∧ deviceStates (updateDeviceState d Partial.empty w) !! d
       = Some defaultDeviceState).
Proof.
  intros before after. subst before after. unfold getDeviceState. simpl.
  rewrite !updateDeviceState_updater_eq. simpl.
  split; [by eexists|]. do 10 (split; [done|]).
  intros Hnone. unfold getDeviceState. by rewrite Hnone.
Qed.

(** ** Every handler as one merge into one record *)

Lemma handleSend_store r e w :
  handleSend_proceeds r = true →
  deviceStates (handleSend r e w)
  = updateDeviceState_updater (Render.currentDeviceId r)
      (Partial.lit
         [Partial.Messages
            (DeviceState.messages (Render.currentState r)
             ++ [userMessage r e; agentMessage e]);
          Partial.Loading true;
          Partial.Error None;
          Partial.CurrentStream (Some (Send.stream e))])
      (deviceStates w).
Proof.
  intros Hgo. unfold handleSend. rewrite Hgo. simpl.
  by rewrite !updater_updater.
Qed.

Lemma updater_lookup d' p (s : Store) d :
  updateDeviceState_updater d' p s !! d
  = if decide (d' = d) then Some (spread (getDeviceState s d) p)
    else s !! d.
Proof.
  case_decide as Hd.
  - subst. apply updateDeviceState_updater_eq.
  - by apply updateDeviceState_updater_ne.
Qed.

Lemma handle_written (ev : Event) (w : World) (d : string) :
  deviceStates (handle ev w) !! d
  = match written ev w d with
    | Some p => Some (spread (getDeviceState (deviceStates w) d) p)
    | None => deviceStates w !! d
    end.
Proof.
  destruct ev; simpl.
  - unfold loadDevices. destruct ids; [done|]. by case_decide.
  - done.
  - unfold fetchScreenshot. by destruct (screenshotFetchingRef w).
  - unfold fetchScreenshot_resolved.
    destruct (answer _ _); [|by case_decide].
    destruct (ScreenshotResponse.success data); simpl; [|by case_decide].
    rewrite updater_lookup; by case_decide.
  - unfold fetchScreenshot_rejected. by destruct (answer _ _).
  - unfold handleInit. destruct failure; simpl; rewrite updater_lookup;
      by case_decide.
  - destruct (handleSend_proceeds r) eqn:Hgo.
    + rewrite handleSend_store, updater_lookup by done. by case_decide.
    + unfold handleSend. rewrite Hgo. by case_decide.
  - unfold onStep_updater. case_decide as Hd.
    + subst. unfold getDeviceState.
      destruct (deviceStates w !! d) eqn:Hst; simpl; [|done].
      by rewrite lookup_insert_eq.
    + destruct (deviceStates w !! deviceId); [|done].
      by rewrite lookup_insert_ne.
  - unfold onDone_updater. case_decide as Hd.
    + subst. unfold getDeviceState.
      destruct (deviceStates w !! d) eqn:Hst; simpl; [|done].
      by rewrite lookup_insert_eq.
    + destruct (deviceStates w !! deviceId); [|done].
      by rewrite lookup_insert_ne.
  - unfold onError_updater. case_decide as Hd.
    + subst. unfold getDeviceState.
      destruct (deviceStates w !! d) eqn:Hst; simpl; [|done].
      by rewrite lookup_insert_eq.
    + destruct (deviceStates w !! deviceId); [|done].
      by rewrite lookup_insert_ne.
  - unfold handleReset. destruct (decide (Render.currentDeviceId r = "")).
    + by case_decide.
    + destruct (DeviceState.currentStream _); simpl; rewrite updater_lookup; by case_decide.
  - unfold handleDeviceChange.
    destruct (DeviceState.currentStream _); simpl; [|by case_decide].
    rewrite updater_lookup; by case_decide.
  - rewrite updater_lookup; by case_decide.
  - rewrite updater_lookup; by case_decide.
  - rewrite updater_lookup; by case_decide.
  - rewrite updater_lookup; by case_decide.
  - rewrite updater_lookup; by case_decide.
  - rewrite updater_lookup; by case_decide.
  - rewrite updater_lookup; by case_decide.
Qed.

(** X4. Every handler writes the record of at most one device: there is
    a device such that the entry of every other device is the same after
    the handler as before, both when its updaters are applied at once and
    when React applies them later, whatever the store and the two refs
    hold by then. *)
Theorem handle_store (ev : Event) (w : World) :
  ∃ d, ∀ d', d ≠ d' →
    deviceStates (handle ev w) !! d' = deviceStates w !! d'
    ∧ ∀ ts acts prev, queued ev w ts acts prev !! d' = prev !! d'.
Proof.
  assert (∀ d', (∀ w0, written ev w0 d' = None) →
            deviceStates (handle ev w) !! d' = deviceStates w !! d'
            ∧ ∀ prev, deviceStates (handle ev (withStore prev w)) !! d'
                      = prev !! d') as Hnone.
  { intros d' Hw. split; [|intros prev]; by rewrite handle_written, Hw. }
  assert (∀ d, (∀ d' w0, d ≠ d' → written ev w0 d' = None) →
            (∀ ts acts prev,
               queued ev w ts acts prev
               = deviceStates (handle ev (withStore prev w))) →
            ∃ d0, ∀ d', d0 ≠ d' →
              deviceStates (handle ev w) !! d' = deviceStates w !! d'
              ∧ ∀ ts acts prev, queued ev w ts acts prev !! d' = prev !! d')
    as Hkey.
  { intros d Hd Hq. exists d. intros d' Hne.
    destruct (Hnone d' (λ w0, Hd d' w0 Hne)) as [Hnow Hlater].
    split; [done|]. intros ts acts prev. by rewrite Hq. }
  destruct ev;
    try (apply (Hkey ""); [by intros d' w0 Hne | done]);
    try (apply (Hkey deviceId);
         [intros d' w0 Hne; simpl; by rewrite decide_False | done]);
    try (apply (Hkey (Render.currentDeviceId r));
         [intros d' w0 Hne; simpl; by rewrite decide_False | done]).
  exists deviceId. intros d' Hne. split.
  - simpl. by apply onStep_updater_ne.
  - intros ts acts prev. simpl. by apply onStep_updater_ne.
Qed.

(** ** Fields that only some handlers write *)

(** Splits the cases of [written]. *)
Ltac written_cases H :=
  simpl in H; try discriminate H;
  repeat (case_decide; try discriminate H);
  repeat (case_match; try discriminate H);
  try (match type of H with
       | context [deviceStates ?w !! ?d] =>
           destruct (deviceStates w !! d); simpl in H; try discriminate H
       end);
  injection H as <-.

Lemma written_initialized ev w d p :
  written ev w d = Some p →
  Partial.initialized p = None ∨ Partial.initialized p = Some true.
Proof. destruct ev; intros Hp; written_cases Hp; simpl; auto. Qed.

Lemma written_loading ev w d p :
  clearsLoading d ev = false →
  written ev w d = Some p →
  Partial.loading p = None ∨ Partial.loading p = Some true.
Proof.
  destruct ev; intros Hev Hp; written_cases Hp; simpl; auto;
    simpl in Hev; by rewrite bool_decide_eq_true_2 in Hev.
Qed.

Lemma written_screenshot ev w d p :
  written ev w d = Some p →
  Partial.screenshot p = None
  ∨ ∃ shot, Partial.screenshot p = Some (Some shot)
            ∧ ScreenshotResponse.success shot = true.
Proof. destruct ev; intros Hp; written_cases Hp; simpl; eauto. Qed.

Lemma getDeviceState_Some (s : Store) d st :
  s !! d = Some st → getDeviceState s d = st.
Proof. intros Hst. unfold getDeviceState. by rewrite Hst. Qed.

Lemma handle_initialized_latched ev w d :
  initialized_latched d w → initialized_latched d (handle ev w).
Proof.
  intros (st & Hst & Hinit). unfold initialized_latched.
  rewrite handle_written. destruct (written ev w d) as [p|] eqn:Hp.
  - eexists. split; [done|]. rewrite (getDeviceState_Some _ _ _ Hst). simpl.
    by destruct (written_initialized _ _ _ _ Hp) as [-> | ->].
  - by exists st.
Qed.

(** X5. Once [handleInit] has succeeded for a device, the device stays
    initialized whatever happens next: no handler, [handleReset] and a later
    failing [handleInit] included, writes [initialized: false] or removes
    the record. *)
Theorem initialized_sticky (w0 : World) (d : string) (evs : list Event) :
  ∃ st, deviceStates (run evs (handleInit d None w0)) !! d = Some st
        ∧ DeviceState.initialized st = true.
Proof.
  apply (run_invariant (initialized_latched d)).
  - intros ev w. apply handle_initialized_latched.
  - unfold initialized_latched, handleInit. simpl.
    rewrite updateDeviceState_updater_eq. by eexists.
Qed.

Lemma handle_loading_set ev w d :
  clearsLoading d ev = false → loading_set d w → loading_set d (handle ev w).
Proof.
  intros Hev (st & Hst & Hload). unfold loading_set.
  rewrite handle_written. destruct (written ev w d) as [p|] eqn:Hp.
  - eexists. split; [done|]. rewrite (getDeviceState_Some _ _ _ Hst). simpl.
    by destruct (written_loading _ _ _ _ Hev Hp) as [-> | ->].
  - by exists st.
Qed.

Lemma run_loading_set d evs :
  Forall (λ ev, clearsLoading d ev = false) evs →
  ∀ w, loading_set d w → loading_set d (run evs w).
Proof.
  induction 1 as [|ev evs Hev _ IH]; intros w Hw; [done|].
  rewrite run_cons. by apply IH, handle_loading_set.
Qed.

(** X6. The [loading] flag of a device is cleared only by a done or error
    event of that device or by a reset of it.  Along any run without those,
    a device that is loading stays loading; [handleDeviceChange], which
    closes the stream, is such an event.  While the device is selected and
    loading, [handleSend] called from a render of that state returns at its
    first guard. *)
Theorem loading_until_terminal (d : string) (evs : list Event) (w : World) :
  Forall (λ ev, clearsLoading d ev = false) evs →
  (∃ st, deviceStates w !! d = Some st ∧ DeviceState.loading st = true) →
  let w' := run evs w in
  (∃ st', deviceStates w' !! d = Some st' ∧ DeviceState.loading st' = true)
  ∧ (currentDeviceId w' = d → ∀ e, handleSend (render w') e w' = w').
Proof.
  intros Hevs Hw w'. subst w'.
  pose proof (run_loading_set d evs Hevs w Hw) as (st' & Hst' & Hload).
  split; [by exists st'|].
  intros Hcur e. unfold handleSend, handleSend_proceeds, render. simpl.
  unfold getCurrentDeviceState. rewrite Hcur.
  rewrite (getDeviceState_Some _ _ _ Hst'), Hload.
  by rewrite orb_true_r.
Qed.

Lemma handle_screenshots_succeeded ev w :
  screenshots_succeeded w → screenshots_succeeded (handle ev w).
Proof.
  intros Hw d st' shot. rewrite handle_written.
  destruct (written ev w d) as [p|] eqn:Hp; [|apply Hw].
  intros [= <-]. simpl.
  destruct (written_screenshot _ _ _ _ Hp) as [-> | (shot' & -> & Hok)];
    simpl.
  - unfold getDeviceState.
    destruct (deviceStates w !! d) as [st|] eqn:Hst; simpl; [|done].
    by apply (Hw d st).
  - by intros [= <-].
Qed.

(** X7. In every reachable state a screenshot held for a device is one
    whose [success] was true, because [fetchScreenshot] stores nothing
    else.  The right-hand pane therefore never shows the error view of a
    failed screenshot: for that case it falls through to the spinner or
    keeps the last image. *)
Theorem stored_screenshots_succeeded (w : World) :
  reachable w →
  (∀ d st shot,
     deviceStates w !! d = Some st →
     DeviceState.screenshot st = Some shot →
     ScreenshotResponse.success shot = true)
  ∧ (∀ error, pane (render w) ≠ ScreenshotErrorPane error).
Proof.
  intros Hw.
  assert (screenshots_succeeded w) as Hok.
  { revert w Hw. apply (reachable_invariant screenshots_succeeded).
    - intros d st shot. simpl. by rewrite lookup_empty.
    - apply handle_screenshots_succeeded. }
  split; [exact Hok|].
  intros error. unfold pane.
  destruct (playerRendered (render w)); [done|].
  destruct (negb _); [|done]. simpl.
  unfold getCurrentDeviceState, getDeviceState.
  destruct (deviceStates w !! currentDeviceId w) as [st|] eqn:Hst; simpl;
    [|done].
  destruct (DeviceState.screenshot st) as [shot|] eqn:Hshot; [|done].
  by rewrite (Hok _ _ _ Hst Hshot).
Qed.

(** ** The send button, the keyboard and the guards of [handleSend] *)

(** X8. The send button is disabled exactly when [handleSend] would return
    at one of its guards, and it is disabled whenever the text input is.
    The keyboard handler calls [handleSend] only for Enter with the meta or
    the control key; called from a render in which the button is disabled,
    it changes nothing. *)
Theorem send_button_matches_guard (r : Render.t) :
  sendDisabled r = negb (handleSend_proceeds r)
  ∧ (inputDisabled r = true → sendDisabled r = true)
  ∧ (∀ event e w, sendDisabled r = true → keyDown event r e w = w)
  ∧ (∀ key e w, keyDown (KeyboardEvent.mk key false false) r e w = w)
  ∧ (∀ event e w,
       KeyboardEvent.key event ≠ "Enter" → keyDown event r e w = w)
  ∧ (∀ meta ctrl e w,
       meta || ctrl = true →
       keyDown (KeyboardEvent.mk "Enter" meta ctrl) r e w
       = handleSend r e w).
Proof.
  assert (sendDisabled r = negb (handleSend_proceeds r)) as Hguard.
  { unfold sendDisabled, handleSend_proceeds.
    destruct (bool_decide (Render.currentDeviceId r = "")),
             (DeviceState.loading (Render.currentState r)),
             (bool_decide (trim (Render.input r) = "")); done. }
  split; [done|]. split; [|split; [|split; [|split]]].
  - unfold inputDisabled, sendDisabled. by intros ->.
  - intros event e w Hdis. unfold keyDown, handleSend.
    rewrite Hguard in Hdis. apply negb_true_iff in Hdis. rewrite Hdis.
    by destruct (handleInputKeyDown event).
  - intros key e w. unfold keyDown, handleInputKeyDown. simpl.
    by rewrite andb_false_r.
  - intros event e w Hkey. unfold keyDown, handleInputKeyDown.
    by rewrite bool_decide_eq_false_2.
  - intros meta ctrl e w Hmod. unfold keyDown, handleInputKeyDown. simpl.
    by rewrite Hmod.
Qed.

(** X9. A [handleSend] that passes its guards leaves the device with the
    captured messages followed by the user message (the trimmed input) and
    the placeholder, whatever messages the store held; with [loading] set,
    no error and the new stream handle; and with every other member as the
    store had it.  It empties the input and the two refs, closes no stream,
    keeps the selection and leaves the other devices alone.  A [handleSend]
    stopped by a guard changes nothing. *)
Theorem handleSend_establishes (r : Render.t) (e : Send.t) (w : World) :
  handleSend_proceeds r = true →
  let d := Render.currentDeviceId r in
  let w' := handleSend r e w in
  let before := getDeviceState (deviceStates w) d in
  (∃ after, deviceStates w' !! d = Some after
     ∧ DeviceState.messages after
       = DeviceState.messages (Render.currentState r)
         ++ [userMessage r e; agentMessage e]
     ∧ Message.content (userMessage r e) = trim (Render.input r)
     ∧ DeviceState.loading after = true
     ∧ DeviceState.error after = None
     ∧ DeviceState.currentStream after = Some (Send.stream e)
     ∧ DeviceState.initialized after = DeviceState.initialized before
     ∧ DeviceState.screenshot after = DeviceState.screenshot before
     ∧ DeviceState.useVideoStream after = DeviceState.useVideoStream before
     ∧ DeviceState.videoStreamFailed after
       = DeviceState.videoStreamFailed before
     ∧ DeviceState.displayMode after = DeviceState.displayMode before
     ∧ DeviceState.tapFeedback after = DeviceState.tapFeedback before)
  ∧ input w' = ""
  ∧ currentThinkingRef w' = []
  ∧ currentActionsRef w' = []
  ∧ closedStreams w' = closedStreams w
  ∧ currentDeviceId w' = currentDeviceId w
  ∧ (∀ d', d ≠ d' → deviceStates w' !! d' = deviceStates w !! d')
  ∧ (∀ r', handleSend_proceeds r' = false → handleSend r' e w = w).
Proof.
  intros Hgo d w' before. subst w'. split.
  - rewrite handleSend_store, updateDeviceState_updater_eq by done.
    eexists. split; [done|]. by repeat split.
  - unfold handleSend at 1 2 3 4 5. rewrite Hgo. simpl.
    do 5 (split; [done|]). split.
    + intros d' Hne. rewrite handleSend_store by done.
      by apply updateDeviceState_updater_ne.
    + intros r' Hstop. unfold handleSend. by rewrite Hstop.
Qed.

(** ** Message ids *)

Lemma to_int_not_nil n :
  Z.to_int n ≠ Decimal.Pos Decimal.Nil ∧ Z.to_int n ≠ Decimal.Neg Decimal.Nil.
Proof.
  split; intros Hn; pose proof (f_equal Z.of_int Hn) as Hz;
    rewrite DecimalZ.of_to in Hz; simpl in Hz; subst n; discriminate Hn.
Qed.

(** X10. The decimal text that [toString] gives for an integer reads back
    as that integer, so different integers have different texts. *)
Theorem toString_round_trip (n : Z) :
  Z.of_int <$> NilZero.int_of_string (toString n) = Some n
  ∧ ∀ m, toString n = toString m ↔ n = m.
Proof.
  assert (∀ k, Z.of_int <$> NilZero.int_of_string (toString k) = Some k)
    as Hback.
  { intros k. unfold toString.
    destruct (to_int_not_nil k) as [Hpos Hneg].
    rewrite NilZero.isi by done. simpl. by rewrite DecimalZ.of_to. }
  split; [apply Hback|].
  intros m. split; [|by intros ->].
  intros Heq. pose proof (Hback n) as Hn. rewrite Heq, Hback in Hn.
  by injection Hn.
Qed.

Lemma toString_inj n m : toString n = toString m → n = m.
Proof.
  intros Heq.
  assert (∀ k, Z.of_int <$> NilZero.int_of_string (toString k) = Some k)
    as Hback.
  { intros k. unfold toString.
    destruct (to_int_not_nil k) as [Hpos Hneg].
    rewrite NilZero.isi by done. simpl. by rewrite DecimalZ.of_to. }
  pose proof (Hback n) as Hn. rewrite Heq, Hback in Hn. by injection Hn.
Qed.

Lemma userMessage_not_placeholder r e :
  Send.now1 e ≤ Send.now2 e →
  Message.id (userMessage r e) ≠ agentMessageId e.
Proof.
  intros Hclock Hid. unfold agentMessageId in Hid. simpl in Hid.
  apply toString_inj in Hid. lia.
Qed.

(** ** A send from its first update to its terminal event *)

(** What [withResult] makes of such a list of messages. *)
Lemma settled_messages a c s before placeholder :
  Message.id placeholder = a →
  ∃ before',
    mapPlaceholder a (withResult c s) (before ++ [placeholder])
    = before' ++ [withResult c s placeholder]
    ∧ length before' = length before
    ∧ ∀ i msg, before !! i = Some msg → Message.id msg ≠ a →
               before' !! i = Some msg.
Proof.
  intros Hid. exists (mapPlaceholder a (withResult c s) before).
  split; [|split].
  - unfold mapPlaceholder. rewrite fmap_app. simpl. by rewrite decide_True.
  - apply mapPlaceholder_length.
  - intros i msg Hmsg Hne. rewrite mapPlaceholder_lookup, Hmsg. simpl.
    by rewrite decide_False.
Qed.

Lemma sent_user_message r e :
  (DeviceState.messages (Render.currentState r) ++ [userMessage r e])
    !! length (DeviceState.messages (Render.currentState r))
  = Some (userMessage r e).
Proof. by rewrite list_lookup_middle. Qed.

(** ** The polling guard is always released *)

(** X13. In a reachable state whose polling guard is set, exactly one
    request is pending; whichever way it ends (a response, successful or
    not, or a rejection) the guard is released and nothing is pending, so
    that the next tick issues a request again. *)
Theorem polling_guard_released (w : World) :
  reachable w →
  screenshotFetchingRef w = true →
  ∃ d,
    pendingScreenshots w = [d]
    ∧ (∀ data,
         let w1 := fetchScreenshot_resolved d data w in
         screenshotFetchingRef w1 = false
         ∧ pendingScreenshots w1 = []
         ∧ ∀ d', pendingScreenshots (fetchScreenshot d' w1) = [d'])
    ∧ (let w1 := fetchScreenshot_rejected d w in
       screenshotFetchingRef w1 = false
       ∧ pendingScreenshots w1 = []
       ∧ deviceStates w1 = deviceStates w
       ∧ ∀ d', pendingScreenshots (fetchScreenshot d' w1) = [d']).
Proof.
  intros Hw Hset. destruct (reachable_polling_guarded w Hw) as [Hlen Href].
  rewrite Hset in Href.
  destruct (pendingScreenshots w) as [|d [|d' rest]] eqn:Hpending;
    [done| |simpl in Hlen; lia].
  exists d. split; [done|]. split.
  - intros data w1. subst w1. unfold fetchScreenshot_resolved.
    rewrite Hpending. simpl. rewrite decide_True by done.
    by destruct (ScreenshotResponse.success data).
  - unfold fetchScreenshot_rejected. rewrite Hpending. simpl.
    by rewrite decide_True.
Qed.

(** ** Reset *)

(** X14. [handleReset] for a selected device empties its messages and
    clears [loading], [error] and the stream handle, and keeps
    [initialized], the screenshot, the display mode with its two flags and
    the tap feedback; it does not touch the two refs or the other devices.
    A second reset changes nothing in the store, and a render of the
    resulting state passes the [loading] guard of [handleSend]. *)
Theorem handleReset_effect (r : Render.t) (w : World) :
  Render.currentDeviceId r ≠ "" →
  let d := Render.currentDeviceId r in
  let w1 := handleReset r w in
  let before := getDeviceState (deviceStates w) d in
  (∃ after, deviceStates w1 !! d = Some after
     ∧ DeviceState.messages after = []
     ∧ DeviceState.loading after = false
     ∧ DeviceState.error after = None
     ∧ DeviceState.currentStream after = None
     ∧ DeviceState.initialized after = DeviceState.initialized before
     ∧ DeviceState.screenshot after = DeviceState.screenshot before
     ∧ DeviceState.useVideoStream after = DeviceState.useVideoStream before
     ∧ DeviceState.videoStreamFailed after
       = DeviceState.videoStreamFailed before
     ∧ DeviceState.displayMode after = DeviceState.displayMode before
     ∧ DeviceState.tapFeedback after = DeviceState.tapFeedback before)
  ∧ currentThinkingRef w1 = currentThinkingRef w
  ∧ currentActionsRef w1 = currentActionsRef w
  ∧ (∀ d', d ≠ d' → deviceStates w1 !! d' = deviceStates w !! d')
  ∧ deviceStates (handleReset r w1) = deviceStates w1
  ∧ (currentDeviceId w1 = d →
     handleSend_proceeds (render w1)
     = negb (bool_decide (trim (input w1) = ""))).
Proof.
  intros Hsel d w1 before.
  assert (deviceStates w1
          = updateDeviceState_updater d
              (Partial.lit [Partial.Messages []; Partial.Loading false;
                            Partial.Error None; Partial.CurrentStream None])
              (deviceStates w)) as Hstore.
  { subst w1. unfold handleReset. rewrite decide_False by done.
    by destruct (DeviceState.currentStream _). }
  assert (deviceStates (handleReset r w1)
          = updateDeviceState_updater d
              (Partial.lit [Partial.Messages []; Partial.Loading false;
                            Partial.Error None; Partial.CurrentStream None])
              (deviceStates w1)) as Hagain.
  { unfold handleReset. rewrite decide_False by done.
    by destruct (DeviceState.currentStream _). }
  split; [|split; [|split; [|split; [|split]]]].
  - rewrite Hstore, updateDeviceState_updater_eq. eexists.
    split; [done|]. by repeat split.
  - subst w1. unfold handleReset. rewrite decide_False by done.
    by destruct (DeviceState.currentStream _).
  - subst w1. unfold handleReset. rewrite decide_False by done.
    by destruct (DeviceState.currentStream _).
  - intros d' Hne. rewrite Hstore. by apply updateDeviceState_updater_ne.
  - rewrite Hagain, Hstore, updater_updater. done.
  - intros Hcur. unfold handleSend_proceeds, render. simpl.
    unfold getCurrentDeviceState. rewrite Hcur, Hstore.
    unfold getDeviceState. rewrite updateDeviceState_updater_eq. simpl.
    rewrite orb_false_r. rewrite (bool_decide_eq_false_2 (d = "")) by done.
    by rewrite andb_true_r.
Qed.

(** ** The device list poll *)

Lemma refresh_selected w ids :
  currentDeviceId w ≠ "" → refresh w ids = w.
Proof.
  intros Hsel. unfold refresh, loadDevices. destruct ids; [done|].
  simpl. by rewrite decide_False.
Qed.

(** X15. Polls of the device list that are each answered before the
    selection changes never replace a selected device, whatever the lists
    contain, and never touch the store; with no device selected, a poll
    selects the first device of a non-empty list and an empty list selects
    nothing. *)
Theorem refresh_keeps_selection (w : World) (responses : list (list string)) :
  deviceStates (foldl refresh w responses) = deviceStates w
  ∧ (currentDeviceId w ≠ "" → foldl refresh w responses = w)
  ∧ (currentDeviceId w = "" →
     refresh w [] = w
     ∧ ∀ first rest, currentDeviceId (refresh w (first :: rest)) = first).
Proof.
  split; [|split].
  - revert w. induction responses as [|ids responses IH]; intros w; [done|].
    simpl. rewrite IH. unfold refresh, loadDevices.
    destruct ids; [done|]. by case_decide.
  - revert w. induction responses as [|ids responses IH]; intros w Hsel;
      [done|].
    simpl. rewrite refresh_selected by done. by apply IH.
  - intros Hnone. split; [done|]. intros first rest.
    unfold refresh, loadDevices, render. simpl.
    by rewrite decide_True.
Qed.

(** ** Player and polling *)

(** X16. For every device state, reachable or not, the player is never
    rendered while screenshots are polled; with no device selected neither
    happens and the pane says so; and the pane is the player exactly when
    the render condition of the player holds. *)
Theorem player_excludes_polling (r : Render.t) :
  showsVideo (Render.currentState r)
  && shouldPollScreenshots (Render.currentState r) = false
  ∧ playerRendered r && pollingActive r = false
  ∧ (Render.currentDeviceId r = "" →
     playerRendered r = false ∧ pollingActive r = false
     ∧ pane r = NoDevicePane)
  ∧ (pane r = PlayerPane ↔ playerRendered r = true).
Proof.
  assert (showsVideo (Render.currentState r)
          && shouldPollScreenshots (Render.currentState r) = false) as Hex.
  { unfold showsVideo, shouldPollScreenshots.
    by destruct (DeviceState.displayMode (Render.currentState r)),
                (DeviceState.useVideoStream (Render.currentState r)),
                (DeviceState.videoStreamFailed (Render.currentState r)). }
  split; [done|]. split; [|split].
  - unfold playerRendered, pollingActive.
    destruct (negb _); [|done]. simpl.
    destruct (showsVideo _); [|done]. by simpl in Hex.
  - intros Hnone. unfold pane, playerRendered, pollingActive.
    by rewrite Hnone.
  - unfold pane. destruct (playerRendered r); [done|].
    split; [|done]. destruct (negb _); [|done].
    destruct (DeviceState.screenshot _) as [shot|]; [|done].
    destruct (ScreenshotResponse.success shot); [done|].
    destruct (ScreenshotResponse.error shot) as [error|]; [|done].
    by case_bool_decide.
Qed.

(** ** The device card *)

Lemma card_buttons_exclusive p :
  DeviceCard.wifiButton p && DeviceCard.disconnectButton p = false.
Proof.
  unfold DeviceCard.wifiButton, DeviceCard.disconnectButton,
    DeviceCard.isUsb, DeviceCard.isRemote.
  destruct (DeviceCard.connectionType p) as [c|];
    repeat case_bool_decide; simplify_eq; try done;
    by destruct (DeviceCard.onConnectWifi p).
Qed.

Lemma card_handle_consistent p ev s :
  DeviceCard.consistent p s →
  DeviceCard.consistent p (DeviceCard.handle p ev s).
Proof.
  intros (Hle & Hload & Hwifi & Hdisc). unfold DeviceCard.handle.
  destruct (DeviceCard.offered p s ev) eqn:Hoff; [|done].
  pose proof (card_buttons_exclusive p) as Hex.
  destruct s as [l sw sd n]. unfold DeviceCard.consistent. simpl in *.
  assert (if l then n = 1%nat else n = 0%nat) as Hn.
  { destruct l; symmetry in Hload.
    - by apply bool_decide_eq_true_1 in Hload.
    - apply bool_decide_eq_false_1 in Hload. lia. }
  clear Hload Hle.
  destruct ev; simpl in *.
  - apply andb_true_iff in Hoff as [Hbtn Hl]. apply negb_true_iff in Hl.
    rewrite Hl in *. subst n. unfold DeviceCard.handleWifiClick. simpl.
    assert (DeviceCard.onConnectWifi p = true) as ->
      by (unfold DeviceCard.wifiButton in Hbtn;
          by apply andb_true_iff in Hbtn as [_ ?]).
    simpl. split_and!; try done. lia.
  - apply andb_true_iff in Hoff as [Hbtn Hl]. apply negb_true_iff in Hl.
    rewrite Hl in *. subst n. unfold DeviceCard.handleDisconnectClick. simpl.
    assert (DeviceCard.onDisconnectWifi p = true) as ->
      by (unfold DeviceCard.disconnectButton in Hbtn;
          by apply andb_true_iff in Hbtn as [_ ?]).
    simpl. split_and!; try done. lia.
  - subst sw. destruct (Hwifi eq_refl) as [Hbtn Hl]. rewrite Hl in *.
    subst n.
    assert (DeviceCard.onConnectWifi p = true) as Hcb
      by (unfold DeviceCard.wifiButton in Hbtn;
          by apply andb_true_iff in Hbtn as [_ ?]).
    unfold DeviceCard.handleConfirmWifi. rewrite Hcb. simpl.
    split_and!; try done.
    intros ->. destruct (Hdisc eq_refl) as [Hbtn' _].
    by rewrite Hbtn, Hbtn' in Hex.
  - unfold DeviceCard.cancelWifi. simpl.
    split_and!; try done; destruct l; subst n; try done; lia.
  - subst sd. destruct (Hdisc eq_refl) as [Hbtn Hl]. rewrite Hl in *.
    subst n.
    assert (DeviceCard.onDisconnectWifi p = true) as Hcb
      by (unfold DeviceCard.disconnectButton in Hbtn;
          by apply andb_true_iff in Hbtn as [_ ?]).
    unfold DeviceCard.handleConfirmDisconnect. rewrite Hcb. simpl.
    split_and!; try done.
    intros ->. destruct (Hwifi eq_refl) as [Hbtn' _].
    by rewrite Hbtn', Hbtn in Hex.
  - unfold DeviceCard.cancelDisconnect. simpl.
    split_and!; try done; destruct l; subst n; try done; lia.
  - apply negb_true_iff, bool_decide_eq_false_1 in Hoff.
    destruct l; [subst n|done]. unfold DeviceCard.settled. simpl.
    split_and!; try done; [lia| |]; intros ->.
    + by destruct (Hwifi eq_refl).
    + by destruct (Hdisc eq_refl).
Qed.

(** X17. On a device card whose props stay the same, whatever the user
    does: at most one connect or disconnect call is awaited; [loading] is
    set exactly while one is, and is released when the call resolves or
    throws; the two confirmation dialogs are never open together and none
    is open while loading; and the two Wi-Fi buttons are never rendered
    together. *)
Theorem card_single_operation (p : DeviceCard.Props)
    (evs : list DeviceCard.Event) :
  let s := DeviceCard.run p evs DeviceCard.mounted in
  (DeviceCard.awaiting s ≤ 1)%nat
  ∧ DeviceCard.loading s = bool_decide (DeviceCard.awaiting s = 1%nat)
  ∧ DeviceCard.showWifiConfirm s && DeviceCard.showDisconnectConfirm s
    = false
  ∧ DeviceCard.loading s
    && (DeviceCard.showWifiConfirm s || DeviceCard.showDisconnectConfirm s)
    = false
  ∧ DeviceCard.wifiButton p && DeviceCard.disconnectButton p = false
  ∧ (DeviceCard.loading s = true →
     DeviceCard.loading (DeviceCard.handle p DeviceCard.Settled s) = false).
Proof.
  intros s.
  assert (DeviceCard.consistent p s) as (Hle & Hload & Hwifi & Hdisc).
  { subst s. unfold DeviceCard.run.
    assert (DeviceCard.consistent p DeviceCard.mounted) as H0
      by (unfold DeviceCard.consistent; simpl; split_and!; try done; lia).
    revert H0. generalize DeviceCard.mounted.
    induction evs as [|ev evs IH]; intros s0 Hs0; [done|].
    simpl. by apply IH, card_handle_consistent. }
  pose proof (card_buttons_exclusive p) as Hex.
  split; [done|]. split; [done|]. split; [|split; [|split; [done|]]].
  - destruct (DeviceCard.showWifiConfirm s) eqn:Hsw; [|done].
    destruct (DeviceCard.showDisconnectConfirm s) eqn:Hsd; [|done].
    destruct (Hwifi eq_refl) as [Hb1 _]. destruct (Hdisc eq_refl) as [Hb2 _].
    by rewrite Hb1, Hb2 in Hex.
  - destruct (DeviceCard.loading s) eqn:Hl; [|done]. simpl.
    destruct (DeviceCard.showWifiConfirm s) eqn:Hsw.
    { by destruct (Hwifi eq_refl). }
    destruct (DeviceCard.showDisconnectConfirm s) eqn:Hsd; [|done].
    by destruct (Hdisc eq_refl).
  - intros Hl. rewrite Hl in Hload. symmetry in Hload.
    apply bool_decide_eq_true_1 in Hload.
    unfold DeviceCard.handle. simpl. rewrite Hload. done.
Qed.

(** ** The two refs of the stream *)


(** ** What the page says about the selection *)

(** X19. The parts of the page agree about the selection.  With no device
    selected the header shows no status, the list shows the welcome hint,
    the pane says that no device is selected, the input asks to select one,
    and the input, the send button and the reset button are all disabled;
    with a device selected none of these holds.  The header offers the
    initialise button exactly when the input asks to initialise. *)
Theorem page_agrees_on_selection (r : Render.t) :
  (Render.currentDeviceId r = "" →
   headerStatus r = NoStatus
   ∧ hint r = WelcomeHint
   ∧ pane r = NoDevicePane
   ∧ inputPlaceholder r = "请先选择设备"
   ∧ inputDisabled r = true
   ∧ sendDisabled r = true
   ∧ resetDisabled r = true)
  ∧ (Render.currentDeviceId r ≠ "" →
     headerStatus r ≠ NoStatus
     ∧ hint r ≠ WelcomeHint
     ∧ pane r ≠ NoDevicePane
     ∧ inputPlaceholder r ≠ "请先选择设备"
     ∧ resetDisabled r = false
     ∧ inputDisabled r = DeviceState.loading (Render.currentState r))
  ∧ (headerStatus r = InitButton
     ↔ inputPlaceholder r = "请先初始化设备").
Proof.
  unfold headerStatus, hint, pane, playerRendered, inputPlaceholder,
    inputDisabled, sendDisabled, resetDisabled.
  split; [|split].
  - intros ->. by repeat split.
  - intros Hsel. rewrite !(bool_decide_eq_false_2 _ Hsel). simpl.
    split_and!; try done.
    + by destruct (DeviceState.initialized _).
    + by case_bool_decide.
    + destruct (showsVideo _); [done|].
      destruct (DeviceState.screenshot _) as [shot|]; [|done].
      destruct (ScreenshotResponse.success shot); [done|].
      destruct (ScreenshotResponse.error shot) as [error|]; [|done].
      by case_bool_decide.
    + by destruct (DeviceState.initialized _).
  - case_bool_decide; simpl; [done|].
    by destruct (DeviceState.initialized _).
Qed.

(** ** The further properties on the scenarios *)

Section tour.
Import Scenario Tour.

Lemma updateDeviceState_commute_witness :
  "D1" ≠ "D2"
  ∧ updateDeviceState "D1" (Partial.Loading true)
      (updateDeviceState "D2" (Partial.DisplayMode screenshot) streaming)
    = updateDeviceState "D2" (Partial.DisplayMode screenshot)
        (updateDeviceState "D1" (Partial.Loading true) streaming).
Proof.
  split; [discriminate|].
  exact (updateDeviceState_commute "D1" "D2" (Partial.Loading true)
           (Partial.DisplayMode screenshot) streaming ltac:(discriminate)).
Defined.

Lemma loading_until_terminal_witness :
  Forall (λ ev, clearsLoading "D1" ev = false) awayAndBack
  ∧ (∃ st, deviceStates streaming !! "D1" = Some st
           ∧ DeviceState.loading st = true)
  ∧ ∃ st', deviceStates (run awayAndBack streaming) !! "D1" = Some st'
           ∧ DeviceState.loading st' = true.
Proof.
  assert (Forall (λ ev, clearsLoading "D1" ev = false) awayAndBack) as Hevs
    by (repeat apply Forall_cons_2; try apply Forall_nil_2; reflexivity).
  assert (∃ st, deviceStates streaming !! "D1" = Some st
                ∧ DeviceState.loading st = true) as Hload
    by (eexists; split; vm_compute; reflexivity).
  split; [exact Hevs|]. split; [exact Hload|].
  exact (proj1 (loading_until_terminal "D1" awayAndBack streaming
                  Hevs Hload)).
Defined.

Lemma stored_screenshots_witness :
  reachable polled
  ∧ ∀ error, pane (render polled) ≠ ScreenshotErrorPane error.
Proof.
  assert (reachable polled) as Hreach by (by eexists).
  split; [exact Hreach|].
  exact (proj2 (stored_screenshots_succeeded polled Hreach)).
Defined.

Lemma handleSend_establishes_witness :
  handleSend_proceeds (render ready) = true
  ∧ input (handleSend (render ready) send1 ready) = "".
Proof.
  assert (handleSend_proceeds (render ready) = true) as Hgo
    by (vm_compute; reflexivity).
  split; [exact Hgo|].
  exact (proj1 (proj2 (handleSend_establishes (render ready) send1 ready
                         Hgo))).
Defined.

Lemma polling_guard_released_witness :
  reachable polling
  ∧ screenshotFetchingRef polling = true
  ∧ ∃ d, pendingScreenshots polling = [d].
Proof.
  assert (reachable polling) as Hreach by (by eexists).
  assert (screenshotFetchingRef polling = true) as Hset by reflexivity.
  split; [exact Hreach|]. split; [exact Hset|].
  destruct (polling_guard_released polling Hreach Hset) as (d & Hd & _).
  by exists d.
Defined.

Lemma handleReset_effect_witness :
  Render.currentDeviceId (render streaming) ≠ ""
  ∧ deviceStates (handleReset (render streaming)
                    (handleReset (render streaming) streaming))
    = deviceStates (handleReset (render streaming) streaming).
Proof.
  assert (Render.currentDeviceId (render streaming) ≠ "") as Hsel
    by (vm_compute; discriminate).
  split; [exact Hsel|].
  exact (proj1 (proj2 (proj2 (proj2 (proj2
           (handleReset_effect (render streaming) streaming Hsel)))))).
Defined.

End tour.

(** ** Batches *)

Lemma withStore_same w : withStore (deviceStates w) w = w.
Proof. by destruct w. Qed.

Lemma withStore_withStore s1 s2 w :
  withStore s1 (withStore s2 w) = withStore s1 w.
Proof. done. Qed.

Lemma withStore_store s w : deviceStates (withStore s w) = s.
Proof. done. Qed.

(** A batch of one call is the handler with its updaters applied at once. *)
Lemma batch_single ev w : batch [ev] w = handle ev w.
Proof.
  unfold batch, calls, flush. cbn [fst snd fold_left]. unfold called.
  rewrite withStore_withStore.
  destruct ev; unfold queued; rewrite ?withStore_same;
    reflexivity.
Qed.

Lemma batches_singles evs w : batches ((λ ev, [ev]) <$> evs) w = run evs w.
Proof.
  revert w. induction evs as [|ev evs IH]; intros w; [done|].
  simpl. unfold batches in *. simpl. rewrite batch_single. apply IH.
Qed.

(** ** Overlapping sends and the two refs *)

Section overlapping.
Import Scenario.

(** C2, at the failing run.  The send on D2 receives the steps [stepA] and
    [stepB]; between them the [handleSend] of D1, suspended at its [await]
    since before the switch to D2, resumes and empties the two refs, which
    all sends share.  The placeholder of D2 ends with the thinking of
    [stepB] alone; and when React applies the queue only after the resumed
    [handleSend], the updaters of both steps read the emptied refs and the
    placeholder ends with no thinking at all. *)
Theorem shared_refs_lose_steps :
  handleSend_proceeds (render onD2) = true
  ∧ handleSend_proceeds (render listed) = true
  ∧ stepsOf "D2" (agentMessageId send1) (concat Batched.crossed)
    = [stepA; stepB]
  ∧ stepsOf "D2" (agentMessageId send1) (concat Batched.unflushed)
    = [stepA; stepB]
  ∧ thinkingOf "D2" (batches Batched.crossed onD2)
    = [None; Some ["the camera is open"]]
  ∧ thinkingOf "D2" (batches Batched.unflushed onD2) = [None; Some []]
  ∧ Message.steps <$> messagesOf "D2" (batches Batched.unflushed onD2)
    = [None; Some 2]
  ∧ batches Batched.crossed onD2 = crossed.
Proof. split_and!; vm_compute; reflexivity. Qed.

End overlapping.

(** ** The two refs at any moment *)





(** ** A send through batches *)

Lemma calls_app evs1 evs2 w :
  calls (evs1 ++ evs2) w
  = ((calls evs2 (calls evs1 w).1).1,
     (calls evs1 w).2 ++ (calls evs2 (calls evs1 w).1).2).
Proof.
  revert w. induction evs1 as [|ev evs1 IH]; intros w; simpl.
  - by destruct (calls evs2 w).
  - by rewrite IH.
Qed.

Lemma flush_app q1 q2 ts acts s :
  flush (q1 ++ q2) ts acts s = flush q2 ts acts (flush q1 ts acts s).
Proof. unfold flush. by rewrite fold_left_app. Qed.

Lemma stepsOf_app d a evs1 evs2 :
  stepsOf d a (evs1 ++ evs2) = stepsOf d a evs1 ++ stepsOf d a evs2.
Proof. unfold stepsOf. by rewrite omap_app. Qed.

Lemma ownStep_inv d a ev event :
  ownStep d a ev = Some event → ev = OnStep d a event.
Proof.
  destruct ev; try done. simpl. case_decide as Heq; [|done].
  destruct Heq as [-> ->]. by intros [= ->].
Qed.

Lemma elsewhere_not_own d a ev : elsewhere d ev = true → ownStep d a ev = None.
Proof. by destruct ev. Qed.

Lemma elsewhere_queued d ev w ts acts prev :
  elsewhere d ev = true → queued ev w ts acts prev !! d = prev !! d.
Proof.
  intros Hev.
  destruct (elsewhere_frame d ev (withStore prev w) Hev) as (Hd & _).
  by destruct ev.
Qed.

Lemma elsewhere_called d ev w :
  elsewhere d ev = true →
  currentThinkingRef (called ev w) = currentThinkingRef w
  ∧ currentActionsRef (called ev w) = currentActionsRef w.
Proof.
  intros Hev. destruct (elsewhere_frame d ev w Hev) as (_ & Hts & Hacts).
  done.
Qed.

Lemma stepsOf_cons_own d a ev evs event :
  ownStep d a ev = Some event →
  stepsOf d a (ev :: evs) = event :: stepsOf d a evs.
Proof. intros Hown. unfold stepsOf. simpl. by rewrite Hown. Qed.

Lemma stepsOf_cons_other d a ev evs :
  ownStep d a ev = None → stepsOf d a (ev :: evs) = stepsOf d a evs.
Proof. intros Hown. unfold stepsOf. simpl. by rewrite Hown. Qed.

(** The refs after the calls of an interleaving: the steps pushed. *)
Lemma calls_refs d a evs :
  interleaving d a evs →
  ∀ w,
    currentThinkingRef (calls evs w).1
    = currentThinkingRef w ++ (StepEvent.thinking <$> stepsOf d a evs)
    ∧ currentActionsRef (calls evs w).1
      = currentActionsRef w ++ (StepEvent.action <$> stepsOf d a evs).
Proof.
  induction 1 as [|ev evs Hev _ IH]; intros w.
  - simpl. by rewrite !app_nil_r.
  - cbn [calls fst]. destruct (IH (called ev w)) as [-> ->].
    destruct Hev as [[event Hown]|Hother].
    + rewrite (stepsOf_cons_own _ _ _ _ _ Hown).
      apply ownStep_inv in Hown as ->. simpl.
      by rewrite <- !(assoc_L (++)).
    + rewrite (stepsOf_cons_other _ _ _ _ (elsewhere_not_own d a ev Hother)).
      by destruct (elsewhere_called d ev w Hother) as [-> ->].
Qed.

(** The record of the device after the queue of an interleaving was
    applied with the refs holding [ts] and [acts]. *)
Lemma flush_interleaving d a ts acts evs :
  interleaving d a evs →
  ∀ w (s : Store) st,
    s !! d = Some st →
    ∃ st',
      flush (calls evs w).2 ts acts s !! d = Some st'
      ∧ DeviceState.messages st'
        = match last (stepsOf d a evs) with
          | Some event =>
              mapPlaceholder a (withStep ts acts (StepEvent.step event))
                             (DeviceState.messages st)
          | None => DeviceState.messages st
          end.
Proof.
  induction 1 as [|ev evs Hev _ IH]; intros w s st Hst.
  - by exists st.
  - cbn [calls snd]. unfold flush. cbn [fold_left].
    fold (flush (calls evs (called ev w)).2 ts acts).
    destruct Hev as [[event Hown]|Hother].
    + rewrite (stepsOf_cons_own _ _ _ _ _ Hown).
      apply ownStep_inv in Hown as ->. cbn [queued].
      edestruct (IH (called (OnStep d a event) w)
                   (onStep_updater d a ts acts (StepEvent.step event) s))
        as (st' & Hst' & Hms).
      { unfold onStep_updater. rewrite Hst. apply lookup_insert_eq. }
      exists st'. split; [done|]. rewrite Hms. simpl.
      rewrite last_cons.
      destruct (last (stepsOf d a evs)); [|done].
      apply mapPlaceholder_withStep_twice.
    + rewrite (stepsOf_cons_other _ _ _ _ (elsewhere_not_own d a ev Hother)).
      apply IH. by rewrite elsewhere_queued.
Qed.

Lemma folded_app a steps more sent ts acts :
  ts = StepEvent.thinking <$> (steps ++ more) →
  acts = StepEvent.action <$> (steps ++ more) →
  match last more with
  | Some event =>
      mapPlaceholder a (withStep ts acts (StepEvent.step event))
                     (folded a steps sent)
  | None => folded a steps sent
  end
  = folded a (steps ++ more) sent.
Proof.
  intros -> ->. destruct (last more) as [event|] eqn:Hlast.
  - rewrite mapPlaceholder_folded. unfold folded.
    by rewrite last_app, Hlast.
  - apply last_None in Hlast as ->. by rewrite app_nil_r.
Qed.

(** A batch of step events of the send and of events elsewhere. *)
Lemma accumulated_batch d a sent steps evs w :
  interleaving d a evs →
  accumulated d a sent steps w →
  accumulated d a sent (steps ++ stepsOf d a evs) (batch evs w).
Proof.
  intros Hevs (Hts & Hacts & st & Hst & Hms).
  destruct (calls_refs d a evs Hevs w) as [Hts' Hacts'].
  unfold accumulated, batch. simpl.
  rewrite Hts', Hacts', Hts, Hacts, <- !fmap_app.
  split; [done|]. split; [done|].
  destruct (flush_interleaving d a
              (StepEvent.thinking <$> steps ++ stepsOf d a evs)
              (StepEvent.action <$> steps ++ stepsOf d a evs)
              evs Hevs w (deviceStates w) st Hst) as (st' & Hst' & Hms').
  exists st'. split; [done|]. rewrite Hms', Hms. by apply folded_app.
Qed.

Lemma accumulated_batches d a sent bs :
  Forall (interleaving d a) bs →
  ∀ steps w,
    accumulated d a sent steps w →
    accumulated d a sent (steps ++ stepsOf d a (concat bs)) (batches bs w).
Proof.
  induction 1 as [|evs bs Hevs _ IH]; intros steps w Hw.
  - simpl. by rewrite app_nil_r.
  - unfold batches in *. simpl.
    rewrite stepsOf_app, (assoc_L (++)). apply IH.
    by apply accumulated_batch.
Qed.

(** The batch in which [handleSend] runs, with what follows in it. *)
Lemma accumulated_send r e evs w :
  handleSend_proceeds r = true →
  interleaving (Render.currentDeviceId r) (agentMessageId e) evs →
  accumulated (Render.currentDeviceId r) (agentMessageId e)
    (DeviceState.messages (Render.currentState r)
     ++ [userMessage r e; agentMessage e])
    (stepsOf (Render.currentDeviceId r) (agentMessageId e) evs)
    (batch (HandleSend r e :: evs) w).
Proof.
  intros Hgo Hevs.
  set (d := Render.currentDeviceId r). set (a := agentMessageId e).
  set (sent := DeviceState.messages (Render.currentState r)
               ++ [userMessage r e; agentMessage e]).
  destruct (calls_refs d a evs Hevs (called (HandleSend r e) w))
    as [Hts Hacts].
  assert (currentThinkingRef (called (HandleSend r e) w) = []
          ∧ currentActionsRef (called (HandleSend r e) w) = [])
    as [Hts0 Hacts0].
  { unfold called. simpl. unfold handleSend. by rewrite Hgo. }
  rewrite Hts0 in Hts. rewrite Hacts0 in Hacts. simpl in Hts, Hacts.
  unfold accumulated, batch. cbn [calls fst snd]. simpl.
  split; [done|]. split; [done|].
  edestruct (flush_interleaving d a
               (currentThinkingRef (calls evs (called (HandleSend r e) w)).1)
               (currentActionsRef (calls evs (called (HandleSend r e) w)).1)
               evs Hevs (called (HandleSend r e) w)
               (deviceStates (handleSend r e (withStore (deviceStates w) w))))
    as (st' & Hst' & Hms').
  { rewrite handleSend_store by done. apply updateDeviceState_updater_eq. }
  exists st'. split; [exact Hst'|]. rewrite Hms'. simpl.
  rewrite Hts, Hacts.
  apply (folded_app a [] (stepsOf d a evs) sent); done.
Qed.

Lemma batch_then_done evs d a event w :
  deviceStates (batch (evs ++ [OnDone d a event]) w)
  = onDone_updater d a event (deviceStates (batch evs w)).
Proof.
  unfold batch. rewrite calls_app. cbn [fst snd calls].
  by rewrite flush_app.
Qed.

Lemma batch_then_error evs d a event w :
  deviceStates (batch (evs ++ [OnError d a event]) w)
  = onError_updater d a event (deviceStates (batch evs w)).
Proof.
  unfold batch. rewrite calls_app. cbn [fst snd calls].
  by rewrite flush_app.
Qed.

(** The device of a send once its steps were applied: the messages that
    [handleSend] wrote, with the steps folded into the placeholder at the
    end.  The calls come in any batches: [first] in the batch of
    [handleSend], then the batches [bs], then [final]. *)
Lemma streamed_state r e w first bs final :
  handleSend_proceeds r = true →
  interleaving (Render.currentDeviceId r) (agentMessageId e) first →
  Forall (interleaving (Render.currentDeviceId r) (agentMessageId e)) bs →
  interleaving (Render.currentDeviceId r) (agentMessageId e) final →
  let steps :=
    stepsOf (Render.currentDeviceId r) (agentMessageId e)
            (first ++ concat bs ++ final) in
  let sent := DeviceState.messages (Render.currentState r)
              ++ [userMessage r e] in
  ∃ st before placeholder,
    deviceStates
      (batch final (batches bs (batch (HandleSend r e :: first) w)))
      !! Render.currentDeviceId r = Some st
    ∧ DeviceState.messages st = before ++ [placeholder]
    ∧ length before = length sent
    ∧ Message.id placeholder = agentMessageId e
    ∧ Message.thinking placeholder = Some (StepEvent.thinking <$> steps)
    ∧ Message.actions placeholder = Some (StepEvent.action <$> steps)
    ∧ Message.steps placeholder = last (StepEvent.step <$> steps)
    ∧ ∀ i msg, sent !! i = Some msg → Message.id msg ≠ agentMessageId e →
               before !! i = Some msg.
Proof.
  intros Hgo Hfirst Hbs Hfinal steps sent.
  pose proof (accumulated_send r e first w Hgo Hfirst) as Hacc.
  apply (accumulated_batches _ _ _ bs Hbs) in Hacc.
  apply (accumulated_batch _ _ _ _ final) in Hacc; [|done].
  rewrite <- (assoc_L (++)), <- !stepsOf_app in Hacc. fold steps in Hacc.
  destruct Hacc as (_ & _ & st & Hst & Hms).
  replace (DeviceState.messages (Render.currentState r)
           ++ [userMessage r e; agentMessage e])
    with (sent ++ [agentMessage e]) in Hms
    by (subst sent; by rewrite <- (assoc_L (++))).
  destruct (folded_placeholder (agentMessageId e) steps sent (agentMessage e))
    as (before & msg & Hfold & Hlen & Hid & Hthink & Hact & Hstep & _ & Hrest);
    try done.
  exists st, before, msg. rewrite Hms. by repeat split.
Qed.

(** X11. A send that passes the guards, is followed by its step events
    (interleaved with events elsewhere, and no other [handleSend] or other
    send's step) and then by its done event, from a clock that does not run
    backwards, and however React batches these calls before applying the
    queued updaters, ends with: the user message where
    [handleSend] put it, unchanged; the placeholder last, with the thinking
    and the actions of the steps in order, the step number of the last one,
    the content and success of the done event and [isStreaming = false];
    and the device no longer loading and without a stream handle. *)
Theorem send_steps_done (r : Render.t) (e : Send.t) (w : World)
    (first : list Event) (bs : list (list Event)) (final : list Event)
    (event : DoneEvent.t) :
  handleSend_proceeds r = true →
  interleaving (Render.currentDeviceId r) (agentMessageId e) first →
  Forall (interleaving (Render.currentDeviceId r) (agentMessageId e)) bs →
  interleaving (Render.currentDeviceId r) (agentMessageId e) final →
  Send.now1 e ≤ Send.now2 e →
  let d := Render.currentDeviceId r in
  let a := agentMessageId e in
  let steps := stepsOf d a (first ++ concat bs ++ final) in
  let w' :=
    batch (final ++ [OnDone d a event])
          (batches bs (batch (HandleSend r e :: first) w)) in
  ∃ st' before placeholder,
    deviceStates w' !! d = Some st'
    ∧ DeviceState.messages st' = before ++ [placeholder]
    ∧ before !! length (DeviceState.messages (Render.currentState r))
      = Some (userMessage r e)
    ∧ Message.id placeholder = a
    ∧ Message.thinking placeholder = Some (StepEvent.thinking <$> steps)
    ∧ Message.actions placeholder = Some (StepEvent.action <$> steps)
    ∧ Message.steps placeholder = last (StepEvent.step <$> steps)
    ∧ Message.content placeholder = DoneEvent.message event
    ∧ Message.success placeholder = Some (DoneEvent.success event)
    ∧ Message.isStreaming placeholder = Some false
    ∧ DeviceState.loading st' = false
    ∧ DeviceState.currentStream st' = None.
Proof.
  intros Hgo Hfirst Hbs Hfinal Hclock d a steps w'.
  destruct (streamed_state r e w first bs final Hgo Hfirst Hbs Hfinal)
    as (st & before & msg & Hst & Hms & Hlen & Hid & Hth & Hact & Hstep
        & Hrest).
  destruct (settled_messages a (DoneEvent.message event)
              (DoneEvent.success event) before msg Hid)
    as (before' & Hmap & Hlen' & Hrest').
  subst w'. rewrite batch_then_done. unfold onDone_updater.
  fold d in Hst. rewrite Hst.
  rewrite lookup_insert_eq. eexists _, before', _. split; [done|]. simpl.
  rewrite Hms. split; [exact Hmap|]. simpl. split; [|by repeat split].
  apply Hrest'; [|by apply userMessage_not_placeholder].
  apply Hrest; [apply sent_user_message|].
  by apply userMessage_not_placeholder.
Qed.

(** X12. The same send, batched in any way, ended by its error event
    instead: the placeholder
    has the formatted error text as content, [success = false] and
    [isStreaming = false], keeps the thinking and actions of the steps, and
    the device is no longer loading, has no stream handle and has the
    event's message as its error. *)
Theorem send_steps_error (r : Render.t) (e : Send.t) (w : World)
    (first : list Event) (bs : list (list Event)) (final : list Event)
    (event : ErrorEvent.t) :
  handleSend_proceeds r = true →
  interleaving (Render.currentDeviceId r) (agentMessageId e) first →
  Forall (interleaving (Render.currentDeviceId r) (agentMessageId e)) bs →
  interleaving (Render.currentDeviceId r) (agentMessageId e) final →
  Send.now1 e ≤ Send.now2 e →
  let d := Render.currentDeviceId r in
  let a := agentMessageId e in
  let steps := stepsOf d a (first ++ concat bs ++ final) in
  let w' :=
    batch (final ++ [OnError d a event])
          (batches bs (batch (HandleSend r e :: first) w)) in
  ∃ st' before placeholder,
    deviceStates w' !! d = Some st'
    ∧ DeviceState.messages st' = before ++ [placeholder]
    ∧ before !! length (DeviceState.messages (Render.currentState r))
      = Some (userMessage r e)
    ∧ Message.id placeholder = a
    ∧ Message.thinking placeholder = Some (StepEvent.thinking <$> steps)
    ∧ Message.actions placeholder = Some (StepEvent.action <$> steps)
    ∧ Message.steps placeholder = last (StepEvent.step <$> steps)
    ∧ Message.content placeholder
      = errorContent (ErrorEvent.message event)
    ∧ Message.success placeholder = Some false
    ∧ Message.isStreaming placeholder = Some false
    ∧ DeviceState.loading st' = false
    ∧ DeviceState.currentStream st' = None
    ∧ DeviceState.error st' = Some (ErrorEvent.message event).
Proof.
  intros Hgo Hfirst Hbs Hfinal Hclock d a steps w'.
  destruct (streamed_state r e w first bs final Hgo Hfirst Hbs Hfinal)
    as (st & before & msg & Hst & Hms & Hlen & Hid & Hth & Hact & Hstep
        & Hrest).
  destruct (settled_messages a (errorContent (ErrorEvent.message event))
              false before msg Hid)
    as (before' & Hmap & Hlen' & Hrest').
  subst w'. rewrite batch_then_error. unfold onError_updater.
  fold d in Hst. rewrite Hst.
  rewrite lookup_insert_eq. eexists _, before', _. split; [done|]. simpl.
  rewrite Hms. split; [exact Hmap|]. simpl. split; [|by repeat split].
  apply Hrest'; [|by apply userMessage_not_placeholder].
  apply Hrest; [apply sent_user_message|].
  by apply userMessage_not_placeholder.
Qed.


(** ** Concrete runs through batches *)

Section batched_tour.
Import Scenario Tour.

Lemma batched_first_interleaving :
  interleaving "D1" (agentMessageId send1)
    [OnStep "D1" (agentMessageId send1) stepA].
Proof.
  apply Forall_cons_2; [left; vm_compute; by eexists|].
  apply Forall_nil_2.
Defined.

Lemma batched_middle_interleaving :
  Forall (interleaving "D1" (agentMessageId send1)) [[OnFallback "D2"]].
Proof.
  apply Forall_cons_2; [|apply Forall_nil_2].
  apply Forall_cons_2; [right; vm_compute; reflexivity|].
  apply Forall_nil_2.
Defined.

Lemma batched_final_interleaving :
  interleaving "D1" (agentMessageId send1)
    [OnStep "D1" (agentMessageId send1) stepB].
Proof.
  apply Forall_cons_2; [left; vm_compute; by eexists|].
  apply Forall_nil_2.
Defined.

Lemma send_steps_done_witness :
  handleSend_proceeds (render ready) = true
  ∧ interleaving (Render.currentDeviceId (render ready))
      (agentMessageId send1) [OnStep "D1" (agentMessageId send1) stepA]
  ∧ Forall (interleaving (Render.currentDeviceId (render ready))
              (agentMessageId send1)) [[OnFallback "D2"]]
  ∧ interleaving (Render.currentDeviceId (render ready))
      (agentMessageId send1) [OnStep "D1" (agentMessageId send1) stepB]
  ∧ Send.now1 send1 ≤ Send.now2 send1
  ∧ ∃ st' before placeholder,
      deviceStates
        (batch ([OnStep "D1" (agentMessageId send1) stepB]
                ++ [OnDone (Render.currentDeviceId (render ready))
                      (agentMessageId send1) finished])
           (batches [[OnFallback "D2"]]
              (batch (HandleSend (render ready) send1
                      :: [OnStep "D1" (agentMessageId send1) stepA])
                     ready)))
        !! Render.currentDeviceId (render ready) = Some st'
      ∧ DeviceState.messages st' = before ++ [placeholder]
      ∧ Message.thinking placeholder
        = Some [StepEvent.thinking stepA; StepEvent.thinking stepB]
      ∧ Message.content placeholder = "Done"
      ∧ Message.isStreaming placeholder = Some false.
Proof.
  assert (handleSend_proceeds (render ready) = true) as Hgo
    by (vm_compute; reflexivity).
  assert (Send.now1 send1 ≤ Send.now2 send1) as Hclock
    by (vm_compute; discriminate).
  split; [exact Hgo|]. split; [exact batched_first_interleaving|].
  split; [exact batched_middle_interleaving|].
  split; [exact batched_final_interleaving|].
  split; [exact Hclock|].
  destruct (send_steps_done (render ready) send1 ready _ _ _ finished
              Hgo batched_first_interleaving batched_middle_interleaving
              batched_final_interleaving Hclock)
    as (st' & before & placeholder & Hst & Hms & _ & _ & Hth & _ & _ & Hc
        & _ & Hs & _).
  exists st', before, placeholder. by repeat split.
Defined.

Lemma send_steps_error_witness :
  handleSend_proceeds (render ready) = true
  ∧ interleaving (Render.currentDeviceId (render ready))
      (agentMessageId send1) [OnStep "D1" (agentMessageId send1) stepA]
  ∧ Forall (interleaving (Render.currentDeviceId (render ready))
              (agentMessageId send1)) [[OnFallback "D2"]]
  ∧ interleaving (Render.currentDeviceId (render ready))
      (agentMessageId send1) [OnStep "D1" (agentMessageId send1) stepB]
  ∧ Send.now1 send1 ≤ Send.now2 send1
  ∧ ∃ st',
      deviceStates
        (batch ([OnStep "D1" (agentMessageId send1) stepB]
                ++ [OnError (Render.currentDeviceId (render ready))
                      (agentMessageId send1)
                      (ErrorEvent.mk "connection lost")])
           (batches [[OnFallback "D2"]]
              (batch (HandleSend (render ready) send1
                      :: [OnStep "D1" (agentMessageId send1) stepA])
                     ready)))
        !! Render.currentDeviceId (render ready) = Some st'
      ∧ DeviceState.error st' = Some "connection lost".
Proof.
  assert (handleSend_proceeds (render ready) = true) as Hgo
    by (vm_compute; reflexivity).
  assert (Send.now1 send1 ≤ Send.now2 send1) as Hclock
    by (vm_compute; discriminate).
  split; [exact Hgo|]. split; [exact batched_first_interleaving|].
  split; [exact batched_middle_interleaving|].
  split; [exact batched_final_interleaving|].
  split; [exact Hclock|].
  destruct (send_steps_error (render ready) send1 ready _ _ _
              (ErrorEvent.mk "connection lost")
              Hgo batched_first_interleaving batched_middle_interleaving
              batched_final_interleaving Hclock)
    as (st' & before & placeholder & Hst & Hrest).
  destruct Hrest as (_ & _ & _ & _ & _ & _ & _ & _ & _ & _ & _ & He).
  exists st'. split; [exact Hst|exact He].
Defined.


End batched_tour.
